(** * viteset-client-go: the polling client, embedded and verified

    The development follows [client.go]: the HTTP vocabulary the client
    talks in, the conditional [fetch], the body of the polling loop that
    [Subscribe] spawns, and the lifecycle operations [Subscribe],
    [Cancel] and [Active] acting on a small world that holds the client,
    its tickers, its channels and its background tasks. *)

From Stdlib Require Import ZArith String Ascii DecimalString.
From Stdlib.Strings Require Import Byte.
From stdpp Require Import gmap strings list.

Local Open Scope string_scope.
Local Open Scope Z_scope.

(** ** Go values *)

(** A Go [error] is modelled by the text its [Error()] method yields;
    the nil error is [None] wherever an [option error] appears. *)
Inductive error : Type :=
| errors_New (msg : string).

(** [[]byte]; a nil slice is [None] wherever an [option bytes] appears. *)
Abbreviation bytes := (list Byte.byte).

(** A call that either returns normally or panics. *)
Inductive outcome (A : Type) : Type :=
| Done (a : A)
| Panics (why : string).
Arguments Done {A} a.
Arguments Panics {A} why.

Definition bind {A B : Type} (m : outcome A) (k : A -> outcome B) : outcome B :=
  match m with
  | Done a => k a
  | Panics why => Panics why
  end.

Notation "'let*' x ':=' m 'in' k" := (bind m (fun x => k))
  (at level 10, x name, m at level 100, k at level 200).

(** ** Formatting verbs of [fmt] *)

(** [%d] of an [int]. *)
Definition fmt_d (n : Z) : string := NilZero.string_of_int (Z.to_int n).

(** [%s] of a [[]byte]. *)
Definition fmt_s_bytes (data : bytes) : string := string_of_list_byte data.

(** ** net/textproto and net/http headers *)

Module Header.

Definition is_lower (a : ascii) : bool :=
  (97 <=? nat_of_ascii a)%nat && (nat_of_ascii a <=? 122)%nat.
Definition is_upper (a : ascii) : bool :=
  (65 <=? nat_of_ascii a)%nat && (nat_of_ascii a <=? 90)%nat.
Definition is_digit (a : ascii) : bool :=
  (48 <=? nat_of_ascii a)%nat && (nat_of_ascii a <=? 57)%nat.

Definition to_upper (a : ascii) : ascii :=
  if is_lower a then ascii_of_nat (nat_of_ascii a - 32) else a.
Definition to_lower (a : ascii) : ascii :=
  if is_upper a then ascii_of_nat (nat_of_ascii a + 32) else a.

(** The token bytes of RFC 7230, as textproto's [validHeaderFieldByte]. *)
Definition validHeaderFieldByte (a : ascii) : bool :=
  is_lower a || is_upper a || is_digit a
  || bool_decide (a ∈ list_ascii_of_string "!#$%&'*+-.^_`|~").

Fixpoint all_valid (s : string) : bool :=
  match s with
  | EmptyString => true
  | String a s' => validHeaderFieldByte a && all_valid s'
  end.

(** Upper-case the first letter and every letter after a dash,
    lower-case the others. *)
Fixpoint canonicalize (upper : bool) (s : string) : string :=
  match s with
  | EmptyString => EmptyString
  | String a s' =>
      let c := if upper then to_upper a else to_lower a in
      String c (canonicalize (Ascii.eqb c "-"%char) s')
  end.

(** textproto's [CanonicalMIMEHeaderKey]: a key holding a byte that is
    not a token byte is returned as it is. *)
Definition CanonicalMIMEHeaderKey (s : string) : string :=
  if all_valid s then canonicalize true s else s.

(** [http.Header] is [map[string][]string]. *)
Abbreviation t := (gmap string (list string)).

(** [h.Add(key, value)] appends to the values stored under the
    canonical key. *)
Definition Add (key value : string) (h : t) : t :=
  let k := CanonicalMIMEHeaderKey key in
  <[k := (default [] (h !! k) ++ [value])%list]> h.

(** [h.Get(key)]: the first value under the canonical key, or the empty
    string. *)
Definition Get (key : string) (h : t) : string :=
  match h !! CanonicalMIMEHeaderKey key with
  | Some (v :: _) => v
  | _ => ""
  end.

End Header.

(** ** Requests, responses and the transport *)

Record Request : Type := mkRequest {
  Method : string;
  URL : string;
  ReqHeader : Header.t
}.

(** A response as [fetch] consumes it: the status code, the headers, and
    what [ioutil.ReadAll(resp.Body)] returns, the bytes read and the read
    error (nil when the body was read to its end). *)
Record Response : Type := mkResponse {
  StatusCode : Z;
  RespHeader : Header.t;
  Body : bytes;
  BodyErr : option error
}.

(** What [client.Do(req)] does with a request: it yields a response or a
    transport error. *)
Definition RoundTripper : Type := Request -> Response + error.

Definition StatusOK : Z := 200.
Definition StatusNotModified : Z := 304.

(** ** The client *)

Definition VERSION : string := "1.0.0".
Definition DEFAULT_HOST : string := "https://api.viteset.com".
(** [time.Minute], in nanoseconds as [time.Duration] counts. *)
Definition DEFAULT_INTERVAL : Z := 60 * 1000000000.

Definition userAgent : string := "Viteset-Client-Go/" +:+ VERSION.

(** A [*time.Ticker] is the index of a ticker in the world's ticker
    store; the nil pointer is [None]. *)
Record Client : Type := mkClient {
  Secret : string;
  Blob : string;
  Interval : Z;
  Host : string;
  last : option bytes;
  ticker : option nat
}.

Record Update : Type := mkUpdate {
  Value : option bytes;
  Error : option error
}.

(** The four results of [fetch]: [(same, data, etag, err)]. *)
Record FetchResult : Type := mkFetchResult {
  same : bool;
  data : option bytes;
  etag : option string;
  err : option error
}.

(** The three shapes [fetch] returns, under the names the design
    documents use for them. *)
Definition Unchanged : FetchResult := mkFetchResult true None None None.
Definition Changed (value : bytes) (token : string) : FetchResult :=
  mkFetchResult false (Some value) (Some token) None.
Definition Failed (e : error) : FetchResult :=
  mkFetchResult false None None (Some e).

Section Model.

(** [http.NewRequest] fails when the URL does not parse; [url_error]
    stands for net/url's verdict on a URL, nil when it is well formed. *)
Variable url_error : string -> option error.

(** [http.NewRequest(method, url, nil)] for the valid method [GET]. *)
Definition NewRequest (method url : string) : Request + error :=
  match url_error url with
  | Some e => inr e
  | None => inl (mkRequest method url ∅)
  end.

Definition req_Header_Add (key value : string) (req : Request) : Request :=
  mkRequest (Method req) (URL req) (Header.Add key value (ReqHeader req)).

(** The request [fetch] hands to [client.Do]. *)
Definition build_request (c : Client) (lastEtag : option string) : Request + error :=
  match NewRequest "GET" (Host c +:+ "/" +:+ Blob c) with
  | inr e => inr e
  | inl req =>
      let req := req_Header_Add "User-Agent" userAgent req in
      let req := req_Header_Add "Authorization" ("Bearer " +:+ Secret c) req in
      let req :=
        match lastEtag with
        | Some tag => req_Header_Add "If-None-Match" tag req
        | None => req
        end in
      inl req
  end.

(** The error [fetch] makes of a status that is neither 304 nor 200:
    [fmt.Errorf] with the expected code, the code received and the body. *)
Definition status_error (resp : Response) : error :=
  errors_New ("expected status code " +:+ fmt_d StatusOK +:+ " but got "
              +:+ fmt_d (StatusCode resp) +:+ ": `"
              +:+ fmt_s_bytes (Body resp) +:+ "`").

(** [c.fetch(lastEtag)] against a network that behaves as [do]. Every
    early return on an error yields [(false, nil, nil, err)]. *)
Definition fetch (c : Client) (lastEtag : option string) (do : RoundTripper)
  : FetchResult :=
  match build_request c lastEtag with
  | inr e => mkFetchResult false None None (Some e)
  | inl req =>
      match do req with
      | inr e => mkFetchResult false None None (Some e)
      | inl resp =>
          match BodyErr resp with
          | Some e => mkFetchResult false None None (Some e)
          | None =>
              if StatusCode resp =? StatusNotModified then
                mkFetchResult true None None None
              else if negb (StatusCode resp =? StatusOK) then
                mkFetchResult false None None (Some (status_error resp))
              else
                mkFetchResult false (Some (Body resp))
                  (Some (Header.Get "ETag" (RespHeader resp))) None
          end
      end
  end.

(** ** The polling loop

    The goroutine that [Subscribe] starts owns the local [lastEtag]
    that its closure captured and writes [c.last] of the client it
    shares with the caller. *)
Record Loop : Type := mkLoop {
  loop_client : Client;
  lastEtag : option string
}.

Definition set_last (v : option bytes) (c : Client) : Client :=
  mkClient (Secret c) (Blob c) (Interval c) (Host c) v (ticker c).

(** One pass over the body of the [for] once [fetch] has returned [r]:
    the updates sent on [ch] and the state the pass leaves. *)
Definition loop_body (r : FetchResult) (s : Loop) : list Update * Loop :=
  match err r with
  | Some e => ([mkUpdate None (Some e)], s)
  | None =>
      if same r then ([], s)
      else ([mkUpdate (data r) None],
            mkLoop (set_last (data r) (loop_client s)) (etag r))
  end.

(** The loop run over the successive results of [fetch]. *)
Fixpoint poll_outcomes (rs : list FetchResult) (s : Loop) : list Update * Loop :=
  match rs with
  | [] => ([], s)
  | r :: rs' =>
      let (sent, s1) := loop_body r s in
      let (sent', s2) := poll_outcomes rs' s1 in
      (sent ++ sent', s2)%list
  end.

(** One tick: [fetch] against what the network does at that tick, then
    the body. *)
Definition iteration (do : RoundTripper) (s : Loop) : list Update * Loop :=
  loop_body (fetch (loop_client s) (lastEtag s) do) s.

(** The loop run over the successive behaviours of the network, one per
    tick. *)
Fixpoint poll (dos : list RoundTripper) (s : Loop) : list Update * Loop :=
  match dos with
  | [] => ([], s)
  | do :: dos' =>
      let (sent, s1) := iteration do s in
      let (sent', s2) := poll dos' s1 in
      (sent ++ sent', s2)%list
  end.

(** A call of [fetch] as an observer of the loop sees it: the validator
    passed in, the request handed to the transport (none when it could
    not be built), and the result. *)
Record Call : Type := mkCall {
  call_lastEtag : option string;
  call_request : option Request;
  call_result : FetchResult
}.

Definition sent_request (c : Client) (tag : option string) : option Request :=
  match build_request c tag with
  | inl req => Some req
  | inr _ => None
  end.

(** The calls of [fetch] the loop makes, tick after tick. *)
Fixpoint fetch_calls (dos : list RoundTripper) (s : Loop) : list Call :=
  match dos with
  | [] => []
  | do :: dos' =>
      let r := fetch (loop_client s) (lastEtag s) do in
      mkCall (lastEtag s) (sent_request (loop_client s) (lastEtag s)) r
        :: fetch_calls dos' (snd (loop_body r s))
  end.

(** ** Tickers, channels, tasks *)

(** A [time.Ticker]: its period, whether [Stop] was called, and whether
    a tick waits in its one-slot channel [C]. *)
Record Ticker : Type := mkTicker {
  period : Z;
  stopped : bool;
  tick_ready : bool
}.

(** Where a polling goroutine stands in the loop of [Subscribe]. *)
Inductive pc : Type :=
| AtFetch                        (* c.fetch(lastEtag) is in flight *)
| AtSendErr (e : error)          (* blocked in ch <- Update{Error: err} *)
| AtSendVal (d : option bytes) (tag : option string)
                                 (* blocked in ch <- Update{Value: data} *)
| AtTicker                       (* about to evaluate c.ticker.C *)
| AtRecvTick (t : nat).          (* blocked in <-C of ticker t *)

Record Task : Type := mkTask {
  task_ch : nat;
  task_lastEtag : option string;
  task_pc : pc
}.

(** The client, the tickers allocated so far, for every channel made so
    far the updates its reader has received, and the goroutines
    started so far. *)
Record World : Type := mkWorld {
  client : Client;
  tickers : list Ticker;
  chans : list (list Update);
  tasks : list Task
}.

Definition set_client (c : Client) (w : World) : World :=
  mkWorld c (tickers w) (chans w) (tasks w).
Definition set_ticker (p : option nat) (c : Client) : Client :=
  mkClient (Secret c) (Blob c) (Interval c) (Host c) (last c) p.
Definition set_Host (h : string) (c : Client) : Client :=
  mkClient (Secret c) (Blob c) (Interval c) h (last c) (ticker c).
Definition set_Interval (d : Z) (c : Client) : Client :=
  mkClient (Secret c) (Blob c) d (Host c) (last c) (ticker c).

(** [time.NewTicker(d)] panics on a non-positive period. *)
Definition NewTicker (d : Z) (w : World) : outcome (nat * World) :=
  if d <=? 0 then Panics "non-positive interval for NewTicker"
  else Done (length (tickers w),
             mkWorld (client w) (tickers w ++ [mkTicker d false false])
               (chans w) (tasks w)).

(** [make(chan Update)]. *)
Definition make_chan (w : World) : nat * World :=
  (length (chans w),
   mkWorld (client w) (tickers w) (chans w ++ [[]]) (tasks w)).

(** [go func() { for { ... } }()]. *)
Definition go (g : Task) (w : World) : World :=
  mkWorld (client w) (tickers w) (chans w) (tasks w ++ [g]).

(** [t.Stop()] through a [*time.Ticker]: a nil pointer panics. A pointer
    that [NewTicker] returned always has its ticker in the store. *)
Definition Ticker_Stop (p : option nat) (w : World) : outcome World :=
  match p with
  | None => Panics "invalid memory address or nil pointer dereference"
  | Some t =>
      Done (mkWorld (client w)
              (alter (fun k => mkTicker (period k) true (tick_ready k)) t (tickers w))
              (chans w) (tasks w))
  end.

(** ** Active, Subscribe, Cancel *)

Definition Active (c : Client) : bool :=
  match ticker c with
  | Some _ => true
  | None => false
  end.

(** The two defaulting statements of [Subscribe]: an empty [Host]
    becomes [DEFAULT_HOST], then a zero [Interval] becomes
    [DEFAULT_INTERVAL]. *)
Definition with_defaults (c : Client) : Client :=
  let c := if String.eqb (Host c) "" then set_Host DEFAULT_HOST c else c in
  if Interval c =? 0 then set_Interval DEFAULT_INTERVAL c else c.

(** [Subscribe] returns the channel (nil is [None]) and the error. *)
Definition Subscribe (w : World) : outcome ((option nat * option error) * World) :=
  let c := client w in
  match ticker c with
  | Some _ =>
      Done ((None, Some (errors_New "cannot re-subscribe with a closed Client")), w)
  | None =>
      if String.eqb (Blob c) "" then
        Done ((None, Some (errors_New "missing blob name")), w)
      else if String.eqb (Secret c) "" then
        Done ((None, Some (errors_New "missing secret")), w)
      else
        let c := with_defaults c in
        let w := set_client c w in
        let (ch, w) := make_chan w in
        let* tw := NewTicker (Interval c) w in
        let w := set_client (set_ticker (Some (fst tw)) (client (snd tw))) (snd tw) in
        let w := go (mkTask ch None AtFetch) w in
        Done ((Some ch, None), w)
  end.

Definition Cancel (w : World) : outcome World :=
  if Active (client w) then
    let* w := Ticker_Stop (ticker (client w)) w in
    Done (set_client (set_ticker None (client w)) w)
  else Done w.

(** ** Interleavings of the caller, the goroutines and the runtime

    The caller calls [Subscribe] and [Cancel] and receives from a
    channel; a goroutine moves from one blocking point of the loop to
    the next; the runtime fires tickers. An action that cannot happen
    in a world (a goroutine that is elsewhere, a stopped ticker) has no
    successor. *)
Inductive action : Type :=
| Call_Subscribe
| Call_Cancel
| Fetch_returns (g : nat) (do : RoundTripper)
| Receive (g : nat)
| Eval_ticker (g : nat)
| Tick (t : nat)
| Tick_received (g : nat).

Definition set_task (g : nat) (k : Task) (w : World) : World :=
  mkWorld (client w) (tickers w) (chans w) (<[g := k]> (tasks w)).

Definition set_tick_ready (t : nat) (b : bool) (w : World) : World :=
  mkWorld (client w)
    (alter (fun k => mkTicker (period k) (stopped k) b) t (tickers w))
    (chans w) (tasks w).

(** The reader of channel [ch] receives [u]. *)
Definition deliver (ch : nat) (u : Update) (w : World) : World :=
  mkWorld (client w) (tickers w)
    (alter (fun got => got ++ [u])%list ch (chans w)) (tasks w).

Definition after_fetch (r : FetchResult) : pc :=
  match err r with
  | Some e => AtSendErr e
  | None => if same r then AtTicker else AtSendVal (data r) (etag r)
  end.

Definition step (a : action) (w : World) : option (outcome World) :=
  match a with
  | Call_Subscribe => Some (let* r := Subscribe w in Done (snd r))
  | Call_Cancel => Some (Cancel w)
  | Fetch_returns g do =>
      match tasks w !! g with
      | Some (mkTask ch tag AtFetch) =>
          let r := fetch (client w) tag do in
          Some (Done (set_task g (mkTask ch tag (after_fetch r)) w))
      | _ => None
      end
  | Receive g =>
      match tasks w !! g with
      | Some (mkTask ch tag (AtSendErr e)) =>
          let w := deliver ch (mkUpdate None (Some e)) w in
          Some (Done (set_task g (mkTask ch tag AtTicker) w))
      | Some (mkTask ch tag (AtSendVal d tag')) =>
          let w := deliver ch (mkUpdate d None) w in
          let w := set_client (set_last d (client w)) w in
          Some (Done (set_task g (mkTask ch tag' AtTicker) w))
      | _ => None
      end
  | Eval_ticker g =>
      match tasks w !! g with
      | Some (mkTask ch tag AtTicker) =>
          match ticker (client w) with
          | None => Some (Panics "invalid memory address or nil pointer dereference")
          | Some t => Some (Done (set_task g (mkTask ch tag (AtRecvTick t)) w))
          end
      | _ => None
      end
  | Tick t =>
      match tickers w !! t with
      | Some k => if stopped k then None else Some (Done (set_tick_ready t true w))
      | None => None
      end
  | Tick_received g =>
      match tasks w !! g with
      | Some (mkTask ch tag (AtRecvTick t)) =>
          match tickers w !! t with
          | Some k =>
              if tick_ready k then
                Some (Done (set_task g (mkTask ch tag AtFetch) (set_tick_ready t false w)))
              else None
          | None => None
          end
      | _ => None
      end
  end.

(** A schedule runs action after action; it has no result when one of
    its actions cannot happen, and ends at the first panic. *)
Fixpoint run (sched : list action) (w : World) : option (outcome World) :=
  match sched with
  | [] => Some (Done w)
  | a :: sched' =>
      match step a w with
      | Some (Done w') => run sched' w'
      | other => other
      end
  end.

(** What the reader of channel [ch] has received so far. *)
Definition received (ch : nat) (w : World) : list Update :=
  default [] (chans w !! ch).

(** A client as the caller writes it down before the first
    [Subscribe], in a world where nothing has been allocated. *)
Definition fresh (secret blob : string) (interval : Z) (host : string) : World :=
  mkWorld (mkClient secret blob interval host None None) [] [] [].

End Model.

(** ** Test doubles

    A URL parser that accepts everything, a transport that answers every
    request with a given status, ETag and body, and a client with a blob
    name and a secret, the optional fields left at their zero values. *)
Module Double.

Definition any_url : string -> option error := fun _ => None.

Definition respond (code : Z) (tag : string) (body : bytes) : RoundTripper :=
  fun _ => inl (mkResponse code (Header.Add "ETag" tag ∅) body None).

Definition A : bytes := [x41].
Definition B : bytes := [x42].
Definition C : bytes := [x43].

Definition e500 : error :=
  errors_New "expected status code 200 but got 500: `oops`".

Definition oops : bytes := [x6f; x6f; x70; x73].

(** Six ticks: 200 with A, 304, 200 with B, 500, 304, 200 with C. *)
Definition six_ticks : list RoundTripper :=
  [respond 200 "a" A; respond 304 "a" []; respond 200 "b" B;
   respond 500 "" oops; respond 304 "b" []; respond 200 "c" C].

Definition world0 : World := fresh "secret" "blob" 0 "".

(** [world0] once [Subscribe] has been called in it. *)
Definition world1 : World :=
  match Subscribe world0 with
  | Done (_, w) => w
  | Panics _ => world0
  end.

(** The same client without a blob name. *)
Definition nameless : World := fresh "secret" "" 0 "".

Definition loop0 : Loop := mkLoop (client world0) None.

(** A loop whose cache already holds A under the validator a. *)
Definition loopA : Loop := mkLoop (set_last (Some A) (client world0)) (Some "a").

End Double.

(** ** Observations on the updates of a run *)

(** What [c.last] holds after the updates [us] were sent, when it held
    [init] before: the value of the last update that carries no error. *)
Fixpoint last_value (us : list Update) (init : option bytes) : option bytes :=
  match us with
  | [] => init
  | u :: us' =>
      last_value us' (match Error u with None => Value u | Some _ => init end)
  end.

(** An update carries a value or an error, not both and not neither. *)
Definition one_populated (u : Update) : Prop :=
  (is_Some (Value u) /\ Error u = None) \/ (Value u = None /\ is_Some (Error u)).

(** ** Worlds in order

    What holds of every world that a fresh client can get into: as many
    goroutines as tickers and as channels; goroutine [g] sends on
    channel [g]; a ticker that runs is the client's current one, and the
    client's current ticker is in the store and runs. *)
Definition tidy (w : World) : Prop :=
  length (tasks w) = length (tickers w)
  /\ length (chans w) = length (tickers w)
  /\ (forall g k, tasks w !! g = Some k -> task_ch k = g)
  /\ (forall t k, tickers w !! t = Some k -> stopped k = false ->
                  ticker (client w) = Some t)
  /\ (forall t, ticker (client w) = Some t ->
                exists k, tickers w !! t = Some k /\ stopped k = false).

(** ** The revision with the documented package

    The same client with a default interval of fifteen seconds, the
    guard of [Subscribe] written with [Active], and its message reworded.
    [Cancel], [Active], [fetch] and the loop are those above. *)
Module V3.

(** [15 * time.Second]. *)
Definition DEFAULT_INTERVAL : Z := 15 * 1000000000.

Definition Subscribe (w : World) : outcome ((option nat * option error) * World) :=
  let c := client w in
  if Active c then
    Done ((None, Some (errors_New "client subscription is already active")), w)
  else if String.eqb (Blob c) "" then
    Done ((None, Some (errors_New "missing blob name")), w)
  else if String.eqb (Secret c) "" then
    Done ((None, Some (errors_New "missing secret")), w)
  else
    let c := if String.eqb (Host c) "" then set_Host DEFAULT_HOST c else c in
    let c := if Interval c =? 0 then set_Interval DEFAULT_INTERVAL c else c in
    let w := set_client c w in
    let (ch, w) := make_chan w in
    let* tw := NewTicker (Interval c) w in
    let w := set_client (set_ticker (Some (fst tw)) (client (snd tw))) (snd tw) in
    let w := go (mkTask ch None AtFetch) w in
    Done ((Some ch, None), w).

(** The one message that was reworded. *)
Definition reworded (r : outcome ((option nat * option error) * World))
  : outcome ((option nat * option error) * World) :=
  match r with
  | Done ((ch, Some e), w) =>
      Done ((ch,
             Some (match e with
                   | errors_New msg =>
                       if String.eqb msg "cannot re-subscribe with a closed Client"
                       then errors_New "client subscription is already active"
                       else e
                   end)), w)
  | other => other
  end.

End V3.

(** ** The revision before validators

    The client as it was before it used ETags ([package client] with
    [Key] for the blob name): [fetch] returns whatever body came back,
    the loop compares the bytes with [c.last], the goroutine waits on
    the ticker it was started with, and [Cancel] stops the ticker and
    keeps the pointer. *)
Module Legacy.

Record Client : Type := mkClient {
  Key : string;
  Secret : string;
  Interval : Z;
  Host : string;
  last : option bytes;
  ticker : option nat
}.

Definition DEFAULT_HOST : string := "https://api.viteset.com".
Definition DEFAULT_INTERVAL : Z := 60 * 1000000000.

Definition set_last (v : option bytes) (c : Client) : Client :=
  mkClient (Key c) (Secret c) (Interval c) (Host c) v (ticker c).
Definition set_ticker (p : option nat) (c : Client) : Client :=
  mkClient (Key c) (Secret c) (Interval c) (Host c) (last c) p.
Definition set_Host (h : string) (c : Client) : Client :=
  mkClient (Key c) (Secret c) (Interval c) h (last c) (ticker c).
Definition set_Interval (d : Z) (c : Client) : Client :=
  mkClient (Key c) (Secret c) d (Host c) (last c) (ticker c).

#[local] Instance byte_eq_decision : EqDecision Byte.byte := Byte.byte_eq_dec.

(** [bytes.Equal]: a nil slice equals an empty one. *)
Definition bytes_Equal (a b : option bytes) : bool :=
  bool_decide (default [] a = default [] b).

Section Fetch.

Variable url_error : string -> option error.

Definition build_request (c : Client) : Request + error :=
  match NewRequest url_error "GET" (Host c +:+ "/" +:+ Key c) with
  | inr e => inr e
  | inl req => inl (req_Header_Add "Authorization" ("Bearer " +:+ Secret c) req)
  end.

(** [c.fetch()]: the two results [(data, err)]; the last return hands on
    what [ioutil.ReadAll] returns, the bytes read and the read error. *)
Definition fetch (c : Client) (do : RoundTripper) : option bytes * option error :=
  match build_request c with
  | inr e => (None, Some e)
  | inl req =>
      match do req with
      | inr e => (None, Some e)
      | inl resp => (Some (Body resp), BodyErr resp)
      end
  end.

(** One pass over the body of the [for] once [fetch] has returned. *)
Definition loop_body (r : option bytes * option error) (c : Client)
  : list Update * Client :=
  match snd r with
  | Some e => ([mkUpdate None (Some e)], c)
  | None =>
      if negb (bytes_Equal (fst r) (last c)) then
        ([mkUpdate (fst r) None], set_last (fst r) c)
      else ([], c)
  end.

Definition iteration (do : RoundTripper) (c : Client) : list Update * Client :=
  loop_body (fetch c do) c.

Fixpoint poll (dos : list RoundTripper) (c : Client) : list Update * Client :=
  match dos with
  | [] => ([], c)
  | do :: dos' =>
      let (sent, c1) := iteration do c in
      let (sent', c2) := poll dos' c1 in
      ((sent ++ sent')%list, c2)
  end.

End Fetch.

(** The client, the tickers, the channels, and for every goroutine the
    channel it sends on and the ticker it waits on. *)
Record World : Type := mkWorld {
  client : Client;
  tickers : list Ticker;
  chans : list (list Update);
  tasks : list (nat * nat)
}.

Definition Subscribe (w : World) : outcome ((option nat * option error) * World) :=
  let c := client w in
  match ticker c with
  | Some _ =>
      Done ((None, Some (errors_New "cannot re-subscribe with a closed Client")), w)
  | None =>
      if String.eqb (Key c) "" then
        Done ((None, Some (errors_New "missing key")), w)
      else if String.eqb (Secret c) "" then
        Done ((None, Some (errors_New "missing secret")), w)
      else
        let c := if String.eqb (Host c) "" then set_Host DEFAULT_HOST c else c in
        let c := if Interval c =? 0 then set_Interval DEFAULT_INTERVAL c else c in
        let ch := length (chans w) in
        if Interval c <=? 0 then Panics "non-positive interval for NewTicker"
        else
          let t := length (tickers w) in
          Done ((Some ch, None),
                mkWorld (set_ticker (Some t) c)
                  (tickers w ++ [mkTicker (Interval c) false false])
                  (chans w ++ [[]])
                  (tasks w ++ [(ch, t)]))
  end.

Definition Cancel (w : World) : World :=
  match ticker (client w) with
  | Some t =>
      mkWorld (client w)
        (alter (fun k => mkTicker (period k) true (tick_ready k)) t (tickers w))
        (chans w) (tasks w)
  | None => w
  end.

End Legacy.

(** ** Observations on the updates of the earlier loop *)

(** The values among the updates, as byte strings, errors left out. *)
Definition values (us : list Update) : list bytes :=
  omap (fun u => match Error u with
                 | None => Some (default [] (Value u))
                 | Some _ => None
                 end) us.

(** No element equals its successor. *)
Definition no_repeat (l : list bytes) : Prop :=
  forall i a b, l !! i = Some a -> l !! S i = Some b -> a <> b.

(** ** More test doubles *)
Module Scene.

Import Double.

(** A server that answers 200 with body A and no ETag header. *)
Definition respond_without_ETag : RoundTripper :=
  fun _ => inl (mkResponse 200 ∅ A None).

(** [world0] subscribed, its goroutine back from a 304 and waiting for
    the first tick. *)
Definition parked : World :=
  match run any_url
          [Call_Subscribe; Fetch_returns 0 (respond 304 "" []); Eval_ticker 0]
          world0 with
  | Some (Done w) => w
  | _ => world0
  end.

(** [parked] after [Cancel]. *)
Definition parked_canceled : World :=
  match Cancel parked with
  | Done w => w
  | Panics _ => parked
  end.

Definition legacy0 : Legacy.World :=
  Legacy.mkWorld (Legacy.mkClient "key" "secret" 0 "" None None) [] [] [].

Definition legacy1 : Legacy.World :=
  match Legacy.Subscribe legacy0 with
  | Done (_, w) => w
  | Panics _ => legacy0
  end.

End Scene.

Example canon_etag : Header.CanonicalMIMEHeaderKey "ETag" = "Etag".
Proof. reflexivity. Qed.

Example canon_inm : Header.CanonicalMIMEHeaderKey "If-None-Match" = "If-None-Match".
Proof. reflexivity. Qed.

Example fmt_d_200 : fmt_d 200 = "200" /\ fmt_d 0 = "0" /\ fmt_d (-1) = "-1".
Proof. repeat split; reflexivity. Qed.

(** * Properties *)

Section Properties.

Variable url_error : string -> option error.

(** ** The conditional fetch *)

Lemma fetch_response (c : Client) (tag : option string) (do : RoundTripper)
    (req : Request) (resp : Response) :
  build_request url_error c tag = inl req ->
  do req = inl resp ->
  BodyErr resp = None ->
  fetch url_error c tag do =
    if StatusCode resp =? StatusNotModified then Unchanged
    else if StatusCode resp =? StatusOK then
      Changed (Body resp) (Header.Get "ETag" (RespHeader resp))
    else Failed (status_error resp).
Proof.
  intros Hreq Hdo Hbody. unfold fetch.
  rewrite Hreq, Hdo, Hbody.
  destruct (StatusCode resp =? StatusNotModified); [reflexivity|].
  destruct (StatusCode resp =? StatusOK); reflexivity.
Qed.

(** [fetch] returns one of three shapes, whatever the network does. *)
Lemma fetch_shapes (c : Client) (tag : option string) (do : RoundTripper) :
  let r := fetch url_error c tag do in
  r = Unchanged \/ (exists v tok, r = Changed v tok) \/ (exists e, r = Failed e).
Proof.
  unfold fetch.
  destruct (build_request url_error c tag) as [req|e]; [|by right; right; exists e].
  destruct (do req) as [resp|e]; [|by right; right; exists e].
  destruct (BodyErr resp) as [e|]; [by right; right; exists e|].
  destruct (StatusCode resp =? StatusNotModified); [by left|].
  destruct (StatusCode resp =? StatusOK); cbn.
  - right; left. by eexists _, _.
  - right; right. by eexists.
Qed.

(** C4. A response that [fetch] received, body read to its end, is
    classified by its status code alone: 304 gives Unchanged and no
    data, whatever the body held; 200 gives Changed with the whole body
    and the value of the response's ETag header; any other status gives
    Failed, and the error text spells out the expected code 200, the
    code received and the body. *)
Theorem fetch_classifies_by_status (c : Client) (tag : option string)
    (do : RoundTripper) (req : Request) (resp : Response) :
  build_request url_error c tag = inl req ->
  do req = inl resp ->
  BodyErr resp = None ->
  (StatusCode resp = 304 ->
     fetch url_error c tag do = Unchanged
     /\ data (fetch url_error c tag do) = None)
  /\ (StatusCode resp = 200 ->
        fetch url_error c tag do =
          Changed (Body resp) (Header.Get "ETag" (RespHeader resp)))
  /\ (StatusCode resp <> 304 -> StatusCode resp <> 200 ->
        fetch url_error c tag do =
          Failed (errors_New ("expected status code 200 but got "
                              +:+ fmt_d (StatusCode resp) +:+ ": `"
                              +:+ string_of_list_byte (Body resp) +:+ "`"))).
Proof.
  intros Hreq Hdo Hbody.
  rewrite (fetch_response c tag do req resp Hreq Hdo Hbody).
  unfold StatusNotModified, StatusOK.
  split; [|split].
  - intros ->. split; reflexivity.
  - intros ->. reflexivity.
  - intros H304 H200.
    destruct (Z.eqb_spec (StatusCode resp) 304); [contradiction|].
    destruct (Z.eqb_spec (StatusCode resp) 200); [contradiction|].
    reflexivity.
Qed.

(** ** The body of the loop *)

Lemma loop_body_failed (e : error) (r : FetchResult) (s : Loop) :
  err r = Some e -> loop_body r s = ([mkUpdate None (Some e)], s).
Proof. intros H. unfold loop_body. by rewrite H. Qed.

Lemma loop_body_same (r : FetchResult) (s : Loop) :
  err r = None -> same r = true -> loop_body r s = ([], s).
Proof. intros H1 H2. unfold loop_body. by rewrite H1, H2. Qed.

Lemma loop_body_changed (v : bytes) (tok : string) (s : Loop) :
  loop_body (Changed v tok) s =
    ([mkUpdate (Some v) None],
     mkLoop (set_last (Some v) (loop_client s)) (Some tok)).
Proof. reflexivity. Qed.

(** C6. At every tick the cached value and the cached validator are
    written only on a Changed outcome: an Unchanged tick sends nothing
    and leaves the state as it was, a Failed tick sends the one error
    update and leaves the state as it was, and a tick that leaves a
    different state had a Changed outcome. *)
Theorem tick_writes_cache_only_on_change (do : RoundTripper) (s : Loop) :
  let r := fetch url_error (loop_client s) (lastEtag s) do in
  (r = Unchanged -> iteration url_error do s = ([], s))
  /\ (forall e, r = Failed e ->
        iteration url_error do s = ([mkUpdate None (Some e)], s))
  /\ (snd (iteration url_error do s) <> s -> exists v tok, r = Changed v tok).
Proof.
  intros r. unfold iteration. fold r. repeat split.
  - intros ->. reflexivity.
  - intros e ->. reflexivity.
  - intros Hne.
    destruct (fetch_shapes (loop_client s) (lastEtag s) do) as [H|[H|[e H]]];
      fold r in H.
    + rewrite H in Hne. by destruct Hne.
    + exact H.
    + rewrite H in Hne. by destruct Hne.
Qed.

(** ** Subscribe, Cancel, Active *)

(** Every error return of [Subscribe] comes before its first write. *)
Lemma Subscribe_error_inv (w w' : World) (ch : option nat) (e : error) :
  Subscribe w = Done ((ch, Some e), w') ->
  w' = w /\ ch = None
  /\ ((ticker (client w) <> None
        /\ e = errors_New "cannot re-subscribe with a closed Client")
      \/ (ticker (client w) = None /\ Blob (client w) = ""
          /\ e = errors_New "missing blob name")
      \/ (ticker (client w) = None /\ Blob (client w) <> ""
          /\ Secret (client w) = "" /\ e = errors_New "missing secret")).
Proof.
  unfold Subscribe.
  destruct (ticker (client w)) as [t|] eqn:Ht.
  { intros [= <- <- <-]. split; [done|]. split; [done|]. left. done. }
  destruct (String.eqb_spec (Blob (client w)) "") as [Hb|Hb].
  { intros [= <- <- <-]. split; [done|]. split; [done|]. right; left. done. }
  destruct (String.eqb_spec (Secret (client w)) "") as [Hs|Hs].
  { intros [= <- <- <-]. split; [done|]. split; [done|]. right; right. done. }
  unfold make_chan, NewTicker. cbn.
  match goal with |- context [?d <=? 0] => destruct (d <=? 0) end; cbn; discriminate.
Qed.

(** C7. With an empty blob name or an empty secret [Subscribe] returns
    an error at once, together with the nil channel, and leaves the
    world as it found it: no goroutine was started and no ticker
    created. *)
Theorem Subscribe_missing_field (w : World) :
  Blob (client w) = "" \/ Secret (client w) = "" ->
  exists e w',
    Subscribe w = Done ((None, Some e), w')
    /\ w' = w /\ tasks w' = tasks w /\ tickers w' = tickers w.
Proof.
  intros H. unfold Subscribe.
  destruct (ticker (client w)); [by eexists _, _|].
  destruct (String.eqb_spec (Blob (client w)) ""); [by eexists _, _|].
  destruct (String.eqb_spec (Secret (client w)) ""); [by eexists _, _|].
  by destruct H.
Qed.

(** C10. Whenever [Subscribe] returns an error, the error is one of the
    three it knows (already subscribed, missing blob name, missing
    secret), the channel is nil and the world is the one it was called
    in: [Host] and [Interval] keep the values the caller gave them, and
    there is no new ticker, channel or goroutine. *)
Theorem Subscribe_error_leaves_world (w w' : World) (ch : option nat) (e : error) :
  Subscribe w = Done ((ch, Some e), w') ->
  ch = None /\ w' = w
  /\ Host (client w') = Host (client w)
  /\ Interval (client w') = Interval (client w)
  /\ ticker (client w') = ticker (client w)
  /\ tickers w' = tickers w /\ chans w' = chans w /\ tasks w' = tasks w
  /\ (e = errors_New "cannot re-subscribe with a closed Client"
      \/ e = errors_New "missing blob name"
      \/ e = errors_New "missing secret").
Proof.
  intros H. apply Subscribe_error_inv in H as (-> & -> & He).
  repeat (split; [reflexivity|]).
  destruct He as [(_ & ->)|[(_ & _ & ->)|(_ & _ & _ & ->)]]; auto.
Qed.

Lemma Cancel_inactive (w : World) :
  Active (client w) = false -> Cancel w = Done w.
Proof. intros H. unfold Cancel. by rewrite H. Qed.

Lemma Cancel_active (w : World) (t : nat) :
  ticker (client w) = Some t ->
  Cancel w =
    Done (mkWorld (set_ticker None (client w))
            (alter (fun k => mkTicker (period k) true (tick_ready k)) t (tickers w))
            (chans w) (tasks w)).
Proof. intros H. unfold Cancel, Active. rewrite H. reflexivity. Qed.

(** C8. [Cancel] never panics and has nothing to report; after it
    [Active] is false; on a client that is not active (never
    subscribed, or canceled before) it changes nothing, so a second
    [Cancel] in a row is such a call. *)
Theorem Cancel_total_and_idempotent (w : World) :
  exists w',
    Cancel w = Done w'
    /\ Active (client w') = false
    /\ (Active (client w) = false -> w' = w)
    /\ Cancel w' = Done w'.
Proof.
  destruct (ticker (client w)) as [t|] eqn:Ht.
  - eexists. split; [apply (Cancel_active w t Ht)|].
    split; [reflexivity|]. split.
    + unfold Active. by rewrite Ht.
    + apply Cancel_inactive. reflexivity.
  - assert (Hin : Active (client w) = false) by (unfold Active; by rewrite Ht).
    exists w. split; [by apply Cancel_inactive|].
    split; [done|]. split; [done|]. by apply Cancel_inactive.
Qed.

(** ** Runs of the loop *)

Lemma poll_as_outcomes (dos : list RoundTripper) (s : Loop) :
  poll url_error dos s =
    poll_outcomes (call_result <$> fetch_calls url_error dos s) s.
Proof.
  revert s. induction dos as [|do dos IH]; intros s; [reflexivity|].
  cbn [poll fetch_calls fmap list_fmap call_result poll_outcomes].
  unfold iteration.
  destruct (loop_body (fetch url_error (loop_client s) (lastEtag s) do) s)
    as [sent s1]. cbn [snd].
  by rewrite IH.
Qed.

(** C1, as the loop has it. A run whose successive fetch outcomes are
    Changed(A), Unchanged, Changed(B), Failed(e), Unchanged, Changed(C)
    delivers four updates, value A, value B, error e, value C, in that
    order: every Changed outcome is delivered, B included. The cache
    then holds C and its validator. *)
Theorem poll_delivers_every_change (dos : list RoundTripper) (s : Loop)
    (A B C : bytes) (ta tb tc : string) (e : error) :
  call_result <$> fetch_calls url_error dos s =
    [Changed A ta; Unchanged; Changed B tb; Failed e; Unchanged; Changed C tc] ->
  poll url_error dos s =
    ([mkUpdate (Some A) None; mkUpdate (Some B) None;
      mkUpdate None (Some e); mkUpdate (Some C) None],
     mkLoop (set_last (Some C) (loop_client s)) (Some tc)).
Proof.
  intros H. rewrite poll_as_outcomes, H. reflexivity.
Qed.

Lemma build_request_ok (c : Client) (tag : option string) :
  url_error (Host c +:+ "/" +:+ Blob c) = None ->
  exists req, build_request url_error c tag = inl req.
Proof.
  intros H. unfold build_request, NewRequest. rewrite H. by eexists.
Qed.

Lemma iteration_200 (do : RoundTripper) (s : Loop) (req : Request) (resp : Response) :
  build_request url_error (loop_client s) (lastEtag s) = inl req ->
  do req = inl resp ->
  BodyErr resp = None ->
  StatusCode resp = 200 ->
  iteration url_error do s =
    ([mkUpdate (Some (Body resp)) None],
     mkLoop (set_last (Some (Body resp)) (loop_client s))
       (Some (Header.Get "ETag" (RespHeader resp)))).
Proof.
  intros Hreq Hdo Hbody Hst. unfold iteration.
  rewrite (fetch_response _ _ _ _ _ Hreq Hdo Hbody), Hst. reflexivity.
Qed.

(** C9. Nothing compares bytes. A 200 response is delivered as an
    update carrying its body also when the cache already holds those
    very bytes; and against a server that answers every request, with
    or without If-None-Match, by 200 and the same body, [n] ticks
    deliver that body [n] times. *)
Theorem status_200_is_always_delivered (do : RoundTripper) (body : bytes) (s : Loop) :
  url_error (Host (loop_client s) +:+ "/" +:+ Blob (loop_client s)) = None ->
  (forall req, exists resp,
      do req = inl resp /\ StatusCode resp = 200
      /\ Body resp = body /\ BodyErr resp = None) ->
  (last (loop_client s) = Some body ->
     fst (iteration url_error do s) = [mkUpdate (Some body) None]
     /\ last (loop_client (snd (iteration url_error do s))) = Some body)
  /\ forall n : nat,
      fst (poll url_error (replicate n do) s) =
        replicate n (mkUpdate (Some body) None).
Proof.
  intros Hurl Hdo. split.
  - intros _.
    destruct (build_request_ok (loop_client s) (lastEtag s) Hurl) as [req Hreq].
    destruct (Hdo req) as (resp & Hresp & Hst & Hb & Hbe).
    rewrite (iteration_200 do s req resp Hreq Hresp Hbe Hst), Hb. done.
  - intros n. revert s Hurl. induction n as [|n IH]; intros s Hurl; [reflexivity|].
    cbn [replicate poll].
    destruct (build_request_ok (loop_client s) (lastEtag s) Hurl) as [req Hreq].
    destruct (Hdo req) as (resp & Hresp & Hst & Hb & Hbe).
    rewrite (iteration_200 do s req resp Hreq Hresp Hbe Hst), Hb.
    specialize (IH (mkLoop (set_last (Some body) (loop_client s))
                      (Some (Header.Get "ETag" (RespHeader resp)))) Hurl).
    destruct (poll url_error (replicate n do) _) as [sent' s2].
    cbn in IH |- *. by rewrite IH.
Qed.

(** ** The validator round trip *)

Lemma build_request_If_None_Match (c : Client) (tag : option string) (req : Request) :
  build_request url_error c tag = inl req ->
  ReqHeader req !! "If-None-Match" = (fun t => [t]) <$> tag.
Proof.
  unfold build_request, NewRequest.
  destruct (url_error _); [discriminate|].
  intros [= <-]. destruct tag as [t|]; cbn [ReqHeader req_Header_Add fmap option_fmap option_map].
  - unfold Header.Add.
    change (Header.CanonicalMIMEHeaderKey "If-None-Match") with "If-None-Match".
    change (Header.CanonicalMIMEHeaderKey "Authorization") with "Authorization".
    change (Header.CanonicalMIMEHeaderKey "User-Agent") with "User-Agent".
    cbn zeta. rewrite lookup_insert_eq.
    rewrite !lookup_insert_ne by discriminate.
    rewrite lookup_empty. reflexivity.
  - unfold Header.Add.
    change (Header.CanonicalMIMEHeaderKey "Authorization") with "Authorization".
    change (Header.CanonicalMIMEHeaderKey "User-Agent") with "User-Agent".
    cbn zeta. rewrite !lookup_insert_ne by discriminate.
    apply lookup_empty.
Qed.

Lemma fetch_calls_lookup_S (do : RoundTripper) (dos : list RoundTripper)
    (s : Loop) (i : nat) :
  fetch_calls url_error (do :: dos) s !! S i =
    fetch_calls url_error dos (snd (iteration url_error do s)) !! i.
Proof. reflexivity. Qed.

(** The validator a call receives is the loop's [lastEtag] at that
    tick, and the loop's [lastEtag] after a Changed tick is the token
    of that outcome. *)
Lemma fetch_calls_next (dos : list RoundTripper) (s : Loop) (i : nat)
    (ci cj : Call) (v : bytes) (tok : string) :
  fetch_calls url_error dos s !! i = Some ci ->
  call_result ci = Changed v tok ->
  fetch_calls url_error dos s !! S i = Some cj ->
  call_lastEtag cj = Some tok.
Proof.
  revert s i. induction dos as [|do dos IH]; intros s i; [done|].
  destruct i as [|i].
  - cbn [fetch_calls lookup list_lookup]. intros [= <-]. cbn [call_result].
    intros ->. rewrite loop_body_changed. cbn [snd].
    destruct dos as [|do' dos]; [done|].
    cbn [fetch_calls lookup list_lookup]. by intros [= <-].
  - rewrite !fetch_calls_lookup_S. apply IH.
Qed.

Lemma fetch_calls_request (dos : list RoundTripper) (s : Loop) (i : nat)
    (ci : Call) (req : Request) :
  fetch_calls url_error dos s !! i = Some ci ->
  call_request ci = Some req ->
  ReqHeader req !! "If-None-Match" = (fun t => [t]) <$> call_lastEtag ci.
Proof.
  revert s i. induction dos as [|do dos IH]; intros s i; [done|].
  destruct i as [|i].
  - cbn [fetch_calls lookup list_lookup]. intros [= <-].
    cbn [call_request call_lastEtag]. unfold sent_request.
    destruct (build_request url_error (loop_client s) (lastEtag s)) eqn:Hreq;
      [|discriminate].
    intros [= <-]. by apply (build_request_If_None_Match (loop_client s)).
  - rewrite fetch_calls_lookup_S. apply IH.
Qed.

(** A call receives a validator exactly when the loop started with one
    or an earlier call had a Changed outcome. *)
Lemma fetch_calls_validator (dos : list RoundTripper) (s : Loop) (i : nat) (ci : Call) :
  fetch_calls url_error dos s !! i = Some ci ->
  is_Some (call_lastEtag ci) <->
  is_Some (lastEtag s)
  \/ exists j cj v tok,
      (j < i)%nat /\ fetch_calls url_error dos s !! j = Some cj
      /\ call_result cj = Changed v tok.
Proof.
  revert s i. induction dos as [|do dos IH]; intros s i; [done|].
  destruct i as [|i].
  - cbn [fetch_calls lookup list_lookup]. intros [= <-]. cbn [call_lastEtag].
    split; [by left|]. intros [H|(j & _ & _ & _ & Hj & _)]; [done|lia].
  - rewrite fetch_calls_lookup_S. intros Hi.
    rewrite (IH _ _ Hi). clear IH Hi. unfold iteration.
    cbn [fetch_calls].
    set (r := fetch url_error (loop_client s) (lastEtag s) do).
    set (c0 := mkCall _ _ r).
    set (rest := fetch_calls url_error dos _).
    assert (Hshift :
      (exists j cj v tok, (j < i)%nat /\ rest !! j = Some cj
                          /\ call_result cj = Changed v tok) ->
      exists j cj v tok, (j < S i)%nat /\ (c0 :: rest) !! j = Some cj
                         /\ call_result cj = Changed v tok).
    { intros (j & cj & v & tok & Hj & Hcj & Hr).
      exists (S j), cj, v, tok. split; [lia|]. by split. }
    destruct (fetch_shapes (loop_client s) (lastEtag s) do)
      as [H|[(v & tok & H)|[e H]]]; fold r in H.
    + (* Unchanged: the validator is carried over *)
      subst rest. rewrite H in *. cbn [loop_body Unchanged err same snd] in *.
      split; (intros [Hs|Hex]; [by left|right]).
      * exact (Hshift Hex).
      * destruct Hex as (j & cj & v & tok & Hj & Hcj & Hr).
        destruct j as [|j];
          [injection Hcj as <-; subst c0; cbn in Hr; rewrite H in Hr; discriminate|].
        exists j, cj, v, tok. split; [lia|]. by split.
    + (* Changed: the next call has a validator *)
      split; [|intros _; left; rewrite H; by eexists].
      intros _. right. exists 0%nat, c0, v, tok. split; [lia|]. by split.
    + (* Failed: the validator is carried over *)
      subst rest. rewrite H in *. cbn [loop_body Failed err same snd] in *.
      split; (intros [Hs|Hex]; [by left|right]).
      * exact (Hshift Hex).
      * destruct Hex as (j & cj & v & tok & Hj & Hcj & Hr).
        destruct j as [|j];
          [injection Hcj as <-; subst c0; cbn in Hr; rewrite H in Hr; discriminate|].
        exists j, cj, v, tok. split; [lia|]. by split.
Qed.

(** C5. In the loop as [Subscribe] starts it (no validator yet): after
    a tick whose outcome is Changed(value, token) the next call of
    [fetch] receives that token; the request of a call carries
    If-None-Match, with the validator as its one value, exactly when
    the call received a validator; a call receives one exactly when an
    earlier tick had a Changed outcome; so the first request carries no
    If-None-Match. *)
Theorem validator_round_trip (c : Client) (dos : list RoundTripper)
    (i : nat) (ci : Call) :
  fetch_calls url_error dos (mkLoop c None) !! i = Some ci ->
  (forall v tok cj,
      call_result ci = Changed v tok ->
      fetch_calls url_error dos (mkLoop c None) !! S i = Some cj ->
      call_lastEtag cj = Some tok)
  /\ (forall req,
        call_request ci = Some req ->
        ReqHeader req !! "If-None-Match" = (fun t => [t]) <$> call_lastEtag ci)
  /\ (is_Some (call_lastEtag ci) <->
      exists j cj v tok,
        (j < i)%nat
        /\ fetch_calls url_error dos (mkLoop c None) !! j = Some cj
        /\ call_result cj = Changed v tok)
  /\ (i = 0%nat ->
      call_lastEtag ci = None
      /\ forall req, call_request ci = Some req ->
                     ReqHeader req !! "If-None-Match" = None).
Proof.
  intros Hi. split; [|split; [|split]].
  - intros v tok cj Hr Hj. exact (fetch_calls_next _ _ _ _ _ _ _ Hi Hr Hj).
  - intros req Hreq. exact (fetch_calls_request _ _ _ _ _ Hi Hreq).
  - rewrite (fetch_calls_validator _ _ _ _ Hi). cbn [lastEtag].
    split; [intros [[? [=]]|H]; exact H | intros H; by right].
  - intros ->. destruct dos as [|do dos]; [done|].
    cbn [fetch_calls lookup list_lookup lastEtag loop_client] in Hi.
    injection Hi as <-. cbn [call_lastEtag call_request]. split; [done|].
    intros req Hreq. unfold sent_request in Hreq.
    destruct (build_request url_error c None) eqn:Hb; [|discriminate].
    injection Hreq as <-. by rewrite (build_request_If_None_Match c None _ Hb).
Qed.

(** ** Canceling and subscribing again *)

Lemma Subscribe_ok (w : World) :
  ticker (client w) = None ->
  Blob (client w) <> "" ->
  Secret (client w) <> "" ->
  0 < Interval (with_defaults (client w)) ->
  Subscribe w =
    Done ((Some (length (chans w)), None),
          mkWorld
            (set_ticker (Some (length (tickers w))) (with_defaults (client w)))
            (tickers w ++ [mkTicker (Interval (with_defaults (client w))) false false])
            (chans w ++ [[]])
            (tasks w ++ [mkTask (length (chans w)) None AtFetch])).
Proof.
  intros Ht Hb Hs Hi. unfold Subscribe. rewrite Ht.
  destruct (String.eqb_spec (Blob (client w)) ""); [contradiction|].
  destruct (String.eqb_spec (Secret (client w)) ""); [contradiction|].
  unfold make_chan, NewTicker. cbn.
  destruct (Z.leb_spec (Interval (with_defaults (client w))) 0); [lia|].
  reflexivity.
Qed.

Lemma Subscribe_ok_inv (w w1 : World) (ch : nat) :
  Subscribe w = Done ((Some ch, None), w1) ->
  ticker (client w) = None
  /\ Blob (client w) <> "" /\ Secret (client w) <> ""
  /\ 0 < Interval (with_defaults (client w)).
Proof.
  unfold Subscribe.
  destruct (ticker (client w)); [discriminate|].
  destruct (String.eqb_spec (Blob (client w)) ""); [discriminate|].
  destruct (String.eqb_spec (Secret (client w)) ""); [discriminate|].
  unfold make_chan, NewTicker. cbn.
  destruct (Z.leb_spec (Interval (with_defaults (client w))) 0); [discriminate|].
  intros _. repeat split; assumption.
Qed.

Lemma with_defaults_fields (c : Client) :
  Blob (with_defaults c) = Blob c /\ Secret (with_defaults c) = Secret c
  /\ ticker (with_defaults c) = ticker c /\ last (with_defaults c) = last c.
Proof.
  unfold with_defaults.
  destruct (String.eqb (Host c) ""); cbn;
    match goal with |- context [?d =? 0] => destruct (d =? 0) end; done.
Qed.

(** Defaults once filled in stay: the host is no longer empty and the
    interval no longer zero, whatever the ticker field holds. *)
Lemma with_defaults_stable (c : Client) (p : option nat) :
  with_defaults (set_ticker p (with_defaults c)) = set_ticker p (with_defaults c).
Proof.
  unfold with_defaults.
  destruct (String.eqb_spec (Host c) "") as [Hh|Hh];
    destruct (Z.eqb_spec (Interval c) 0) as [Hi|Hi];
    cbn [set_ticker set_Host set_Interval Host Interval Secret Blob last ticker].
  all: repeat match goal with
         | |- context [String.eqb ?a ?b] => destruct (String.eqb_spec a b)
         | |- context [?a =? ?b] => destruct (Z.eqb_spec a b)
         end; try reflexivity; try contradiction; try discriminate.
Qed.

(** What the guard of [Subscribe] lets through: on every client that
    was subscribed and then canceled, a second [Subscribe] succeeds,
    with a channel of its own and a second goroutine next to the
    first. *)
Lemma Subscribe_after_Cancel (w w1 w2 : World) (ch : nat) :
  Subscribe w = Done ((Some ch, None), w1) ->
  Cancel w1 = Done w2 ->
  exists w3,
    Subscribe w2 = Done ((Some (S ch), None), w3)
    /\ length (tasks w3) = S (S (length (tasks w))).
Proof.
  intros Hsub Hcan.
  destruct (Subscribe_ok_inv _ _ _ Hsub) as (Ht & Hb & Hs & Hi).
  rewrite (Subscribe_ok w Ht Hb Hs Hi) in Hsub.
  injection Hsub as <- <-.
  erewrite Cancel_active in Hcan by reflexivity.
  injection Hcan as <-.
  destruct (with_defaults_fields (client w)) as (Hb' & Hs' & _).
  set (c2 := set_ticker None (set_ticker (Some (length (tickers w)))
                                (with_defaults (client w)))).
  assert (Hc2 : c2 = set_ticker None (with_defaults (client w))) by reflexivity.
  assert (Hd : with_defaults c2 = c2)
    by (rewrite Hc2; apply with_defaults_stable).
  eexists. split.
  - rewrite Subscribe_ok; cbn [client chans tasks tickers].
    + rewrite length_app. cbn [length]. rewrite Nat.add_1_r. reflexivity.
    + reflexivity.
    + fold c2. rewrite Hc2. cbn [set_ticker Blob]. by rewrite Hb'.
    + fold c2. rewrite Hc2. cbn [set_ticker Secret]. by rewrite Hs'.
    + fold c2. rewrite Hd, Hc2. exact Hi.
  - cbn [tasks]. rewrite !length_app. cbn [length]. lia.
Qed.

(** ** The goroutine, step by step *)

Lemma fetch_set_ticker (c : Client) (p : option nat) (tag : option string)
    (do : RoundTripper) :
  fetch url_error (set_ticker p c) tag do = fetch url_error c tag do.
Proof. reflexivity. Qed.

Lemma received_deliver (ch : nat) (u : Update) (w : World) :
  (ch < length (chans w))%nat ->
  received ch (deliver ch u w) = (received ch w ++ [u])%list.
Proof.
  intros Hlt. unfold received, deliver. cbn [chans].
  rewrite list_lookup_alter.
  destruct (lookup_lt_is_Some_2 (chans w) ch Hlt) as [got Hgot].
  rewrite Hgot. by case_decide.
Qed.

Lemma received_set_task (ch g : nat) (k : Task) (w : World) :
  received ch (set_task g k w) = received ch w.
Proof. reflexivity. Qed.

Lemma received_set_client (ch : nat) (c : Client) (w : World) :
  received ch (set_client c w) = received ch w.
Proof. reflexivity. Qed.

(** The steps of a goroutine from the call of [fetch] to the ticker
    add up to one pass over the loop body: when the reader takes what
    is sent, one tick of a goroutine does to the client, to its
    validator and to its channel what [iteration] says. *)
Lemma step_iteration (w : World) (g ch : nat) (tag : option string)
    (do : RoundTripper) :
  tasks w !! g = Some (mkTask ch tag AtFetch) ->
  (ch < length (chans w))%nat ->
  exists w',
    run url_error
      (Fetch_returns g do ::
         match fst (iteration url_error do (mkLoop (client w) tag)) with
         | [] => []
         | _ :: _ => [Receive g]
         end) w = Some (Done w')
    /\ client w' = loop_client (snd (iteration url_error do (mkLoop (client w) tag)))
    /\ tasks w' !! g =
         Some (mkTask ch
                 (lastEtag (snd (iteration url_error do (mkLoop (client w) tag))))
                 AtTicker)
    /\ received ch w' =
         (received ch w ++ fst (iteration url_error do (mkLoop (client w) tag)))%list.
Proof.
  intros Hg Hch.
  assert (Hlt : (g < length (tasks w))%nat) by (by eapply lookup_lt_Some).
  unfold iteration, loop_body. cbn [loop_client lastEtag].
  cbn [run step]. rewrite Hg. unfold after_fetch.
  set (r := fetch url_error (client w) tag do).
  destruct (err r) as [e|]; [|destruct (same r)]; cbn [fst snd run step set_task tasks].
  - rewrite list_lookup_insert_eq by exact Hlt.
    eexists. split; [reflexivity|].
    split; [reflexivity|]. split.
    + cbn [set_task deliver tasks]. rewrite list_lookup_insert_eq; [done|].
      by rewrite length_insert.
    + by rewrite received_set_task, received_deliver, received_set_task.
  - eexists. split; [reflexivity|]. split; [reflexivity|]. split.
    + cbn [set_task tasks]. by rewrite list_lookup_insert_eq.
    + rewrite received_set_task. by rewrite app_nil_r.
  - rewrite list_lookup_insert_eq by exact Hlt.
    eexists. split; [reflexivity|].
    split; [reflexivity|]. split.
    + cbn [set_task set_client deliver tasks]. rewrite list_lookup_insert_eq; [done|].
      by rewrite length_insert.
    + by rewrite received_set_task, received_set_client, received_deliver,
        received_set_task.
Qed.

(** [Cancel] writes the ticker and the client's ticker field and
    nothing else: the goroutines stand where they stood. *)
Lemma Cancel_keeps_tasks (w w' : World) :
  Cancel w = Done w' ->
  tasks w' = tasks w /\ chans w' = chans w
  /\ exists p, client w' = set_ticker p (client w).
Proof.
  unfold Cancel, Active.
  destruct (ticker (client w)) as [t|] eqn:Ht; cbn; intros [= <-].
  - repeat split. by exists None.
  - repeat split. exists None. destruct w as [[]]; cbn in *. by subst.
Qed.

(** A fetch that is in flight when [Cancel] returns is still
    delivered: its goroutine goes on to the send, and the reader that
    receives from the channel gets the update. *)
Lemma delivery_after_Cancel (w w' : World) (g ch : nat) (tag : option string)
    (do : RoundTripper) (v : bytes) (tok : string) :
  tasks w !! g = Some (mkTask ch tag AtFetch) ->
  (ch < length (chans w))%nat ->
  Cancel w = Done w' ->
  fetch url_error (client w) tag do = Changed v tok ->
  exists w'',
    run url_error [Fetch_returns g do; Receive g] w' = Some (Done w'')
    /\ received ch w'' = (received ch w' ++ [mkUpdate (Some v) None])%list.
Proof.
  intros Hg Hch Hcan Hfetch.
  destruct (Cancel_keeps_tasks _ _ Hcan) as (Ht & Hc & p & Hp).
  destruct (step_iteration w' g ch tag do) as (w'' & Hrun & _ & _ & Hrecv).
  { by rewrite Ht. }
  { by rewrite Hc. }
  unfold iteration in Hrun, Hrecv. cbn [loop_client lastEtag] in Hrun, Hrecv.
  rewrite Hp, fetch_set_ticker, Hfetch in Hrun, Hrecv.
  exists w''. split; [exact Hrun|exact Hrecv].
Qed.

End Properties.

(** * The properties on concrete runs *)

Import Double.

(** C1, as stated, fails: on six ticks with the outcomes the claim lists,
    the loop does not deliver the three updates value A, error e,
    value C. *)
Lemma poll_six_ticks_not_three_updates :
  call_result <$> fetch_calls any_url six_ticks loop0 =
    [Changed A "a"; Unchanged; Changed B "b"; Failed e500; Unchanged; Changed C "c"]
  /\ fst (poll any_url six_ticks loop0) <>
       [mkUpdate (Some A) None; mkUpdate None (Some e500); mkUpdate (Some C) None].
Proof.
  split.
  - vm_compute. reflexivity.
  - vm_compute. discriminate.
Qed.

(** The six ticks of [six_ticks] deliver A, B, the 500 error and C. *)
Lemma poll_delivers_every_change_witness :
  poll any_url six_ticks loop0 =
    ([mkUpdate (Some A) None; mkUpdate (Some B) None;
      mkUpdate None (Some e500); mkUpdate (Some C) None],
     mkLoop (set_last (Some C) (client world0)) (Some "c")).
Proof.
  apply (poll_delivers_every_change any_url six_ticks loop0 A B C "a" "b" "c" e500).
  vm_compute. reflexivity.
Defined.

(** C2, at the failing input. A client with a blob name and a secret is
    subscribed, then canceled; the second [Subscribe] on it returns a
    channel and the nil error, and a second goroutine runs beside the
    first. The guard that carries the message about a closed client sees
    the nil ticker that [Cancel] left. *)
Theorem Subscribe_accepts_canceled_client :
  exists w1 w2 w3,
    Subscribe world0 = Done ((Some 0%nat, None), w1)
    /\ Cancel w1 = Done w2
    /\ Active (client w2) = false
    /\ Subscribe w2 = Done ((Some 1%nat, None), w3)
    /\ Active (client w3) = true
    /\ length (tasks w3) = 2%nat.
Proof.
  eexists _, _, _.
  split; [reflexivity|]. split; [reflexivity|]. split; [reflexivity|].
  split; [reflexivity|]. split; reflexivity.
Qed.

(** C3, at the failing input. [Cancel] is called while the first fetch is
    in flight. When it has returned, [Active] is false and the reader
    has received nothing; then the fetch comes back with 200 and body A,
    the goroutine sends, and the reader receives value A. *)
Theorem Cancel_then_update_delivered :
  exists w2 w3,
    run any_url [Call_Subscribe; Call_Cancel] world0 = Some (Done w2)
    /\ Active (client w2) = false
    /\ received 0 w2 = []
    /\ run any_url [Fetch_returns 0 (respond 200 "a" A); Receive 0] w2 = Some (Done w3)
    /\ received 0 w3 = [mkUpdate (Some A) None].
Proof.
  eexists _, _.
  split; [reflexivity|]. split; [reflexivity|]. split; [reflexivity|].
  split; [vm_compute; reflexivity|]. vm_compute. reflexivity.
Qed.

(** The same when [Cancel] comes while the goroutine is blocked in the
    send: the reader that receives afterwards gets the update. *)
Example canceled_pending_send_is_delivered :
  exists w,
    run any_url
      [Call_Subscribe; Fetch_returns 0 (respond 200 "a" A); Call_Cancel; Receive 0]
      world0 = Some (Done w)
    /\ Active (client w) = false
    /\ received 0 w = [mkUpdate (Some A) None].
Proof. eexists. split; [vm_compute; reflexivity|]. split; reflexivity. Qed.

(** The goroutine of that run then reaches the ticker, finds the nil
    pointer [Cancel] stored, and panics. *)
Example canceled_goroutine_panics :
  run any_url
    [Call_Subscribe; Call_Cancel; Fetch_returns 0 (respond 200 "a" A);
     Receive 0; Eval_ticker 0] world0
  = Some (Panics "invalid memory address or nil pointer dereference").
Proof. vm_compute. reflexivity. Qed.

(** A goroutine that is already waiting for its ticker when [Cancel]
    comes stays there: the stopped ticker fires no more. *)
Example canceled_ticker_is_silent :
  run any_url
    [Call_Subscribe; Fetch_returns 0 (respond 304 "" []); Eval_ticker 0;
     Call_Cancel; Tick 0] world0
  = None.
Proof. vm_compute. reflexivity. Qed.

(** A 500 response with body oops. *)
Lemma fetch_classifies_by_status_witness :
  fetch any_url (client world0) None (respond 500 "" oops) = Failed e500.
Proof.
  pose proof (fetch_classifies_by_status any_url (client world0) None
                (respond 500 "" oops) _ _ eq_refl eq_refl eq_refl) as (_ & _ & H).
  apply H; cbn; lia.
Defined.

(** In [six_ticks] the first call returns Changed with token a and the
    second call receives a. *)
Lemma validator_round_trip_witness :
  exists c0 c1,
    fetch_calls any_url six_ticks loop0 !! 0%nat = Some c0
    /\ call_result c0 = Changed A "a"
    /\ fetch_calls any_url six_ticks loop0 !! 1%nat = Some c1
    /\ call_lastEtag c1 = Some "a".
Proof.
  eexists _, _.
  split; [reflexivity|]. split; [reflexivity|]. split; [reflexivity|].
  eapply (proj1 (validator_round_trip any_url (client world0) six_ticks 0 _ eq_refl)).
  - reflexivity.
  - reflexivity.
Defined.

(** A 304 tick and a 500 tick on a loop that holds A. *)
Lemma tick_writes_cache_only_on_change_witness :
  iteration any_url (respond 304 "a" []) loopA = ([], loopA)
  /\ iteration any_url (respond 500 "" oops) loopA = ([mkUpdate None (Some e500)], loopA).
Proof.
  split.
  - apply (proj1 (tick_writes_cache_only_on_change any_url (respond 304 "a" []) loopA)).
    reflexivity.
  - apply (proj1 (proj2 (tick_writes_cache_only_on_change any_url
                           (respond 500 "" oops) loopA))).
    reflexivity.
Defined.

(** [Subscribe] on a client without a blob name. *)
Lemma Subscribe_missing_field_witness :
  exists e w',
    Subscribe nameless = Done ((None, Some e), w')
    /\ w' = nameless /\ tasks w' = tasks nameless /\ tickers w' = tickers nameless.
Proof.
  apply (Subscribe_missing_field nameless). left. reflexivity.
Defined.

(** A second [Subscribe] on the live client of [world1]: the error of the
    guard, and [Host] still the default the first call stored. *)
Lemma Subscribe_error_leaves_world_witness :
  Subscribe world1 =
    Done ((None, Some (errors_New "cannot re-subscribe with a closed Client")), world1)
  /\ None = (None : option nat) /\ world1 = world1
  /\ Host (client world1) = Host (client world1)
  /\ Interval (client world1) = Interval (client world1)
  /\ ticker (client world1) = ticker (client world1)
  /\ tickers world1 = tickers world1 /\ chans world1 = chans world1
  /\ tasks world1 = tasks world1
  /\ (errors_New "cannot re-subscribe with a closed Client"
        = errors_New "cannot re-subscribe with a closed Client"
      \/ errors_New "cannot re-subscribe with a closed Client"
          = errors_New "missing blob name"
      \/ errors_New "cannot re-subscribe with a closed Client"
          = errors_New "missing secret").
Proof.
  split; [reflexivity|].
  apply (Subscribe_error_leaves_world world1 world1 None
           (errors_New "cannot re-subscribe with a closed Client")).
  reflexivity.
Defined.

(** Three ticks against a server that always answers 200 with A, on a
    loop that already holds A. *)
Lemma status_200_is_always_delivered_witness :
  last (loop_client loopA) = Some A
  /\ fst (poll any_url (replicate 3 (respond 200 "a" A)) loopA) =
       replicate 3 (mkUpdate (Some A) None).
Proof.
  split; [reflexivity|].
  apply (status_200_is_always_delivered any_url (respond 200 "a" A) A loopA).
  - reflexivity.
  - intros req. eexists. repeat split; reflexivity.
Defined.

(** * More of the fetch and of the loop *)

Section Fetching.

Variable url_error : string -> option error.


(** When [fetch] fails, and with which error: the URL did not parse, or
    the transport failed, or the body could not be read (whatever the
    status, 200 and 304 included), or the body was read and the status is
    neither 304 nor 200. In no other case does [fetch] return an error. *)
Theorem fetch_fails_exactly_when (c : Client) (tag : option string)
    (do : RoundTripper) (e : error) :
  err (fetch url_error c tag do) = Some e <->
  url_error (Host c +:+ "/" +:+ Blob c) = Some e
  \/ exists req,
      build_request url_error c tag = inl req
      /\ (do req = inr e
          \/ exists resp,
              do req = inl resp
              /\ (BodyErr resp = Some e
                  \/ (BodyErr resp = None /\ StatusCode resp <> 304
                      /\ StatusCode resp <> 200 /\ e = status_error resp))).
Proof.
  unfold fetch, build_request, NewRequest.
  destruct (url_error _) as [e0|] eqn:Hurl; cbn [err].
  { split; [intros [= ->]; by left|].
    intros [[= ->]|(req & [=] & _)]. reflexivity. }
  match goal with |- context [do ?r] => set (req := r) end.
  destruct (do req) as [resp|e0] eqn:Hdo; cbn [err].
  2:{ split.
      - intros [= ->]. right. exists req. split; [done|]. by left.
      - intros [[=]|(req' & [= <-] & [Hd|(resp & Hd & _)])];
          rewrite Hdo in Hd; by simplify_eq. }
  destruct (BodyErr resp) as [e0|] eqn:Hb; cbn [err].
  { split.
    - intros [= ->]. right. exists req. split; [done|]. right.
      exists resp. split; [done|]. by left.
    - intros [[=]|(req' & [= <-] & [Hd|(resp' & Hd & H)])];
        rewrite Hdo in Hd; simplify_eq.
      destruct H as [H|(H & _)]; rewrite Hb in H; by simplify_eq. }
  unfold StatusNotModified, StatusOK.
  destruct (Z.eqb_spec (StatusCode resp) 304) as [H304|H304]; cbn [err].
  { split; [done|].
    intros [[=]|(req' & [= <-] & [Hd|(resp' & Hd & H)])];
      rewrite Hdo in Hd; simplify_eq.
    destruct H as [H|(_ & H & _)]; [rewrite Hb in H; done|done]. }
  destruct (Z.eqb_spec (StatusCode resp) 200) as [H200|H200]; cbn [negb err].
  { split; [done|].
    intros [[=]|(req' & [= <-] & [Hd|(resp' & Hd & H)])];
      rewrite Hdo in Hd; simplify_eq.
    destruct H as [H|(_ & _ & H & _)]; [rewrite Hb in H; done|done]. }
  split.
  - intros [= <-]. right. exists req. split; [done|]. right.
    exists resp. split; [done|]. right. done.
  - intros [[=]|(req' & [= <-] & [Hd|(resp' & Hd & H)])];
      rewrite Hdo in Hd; simplify_eq.
    destruct H as [H|(_ & _ & _ & ->)]; [rewrite Hb in H; done|done].
Qed.

(** A 200 response without an ETag header still sets the validator: to
    the empty string, which the next request then sends as the one value
    of If-None-Match. *)
Theorem missing_ETag_gives_empty_validator (do : RoundTripper) (s : Loop)
    (req : Request) (resp : Response) :
  build_request url_error (loop_client s) (lastEtag s) = inl req ->
  do req = inl resp ->
  BodyErr resp = None ->
  StatusCode resp = 200 ->
  RespHeader resp !! "Etag" = None ->
  lastEtag (snd (iteration url_error do s)) = Some ""
  /\ exists req',
      build_request url_error (loop_client (snd (iteration url_error do s)))
        (lastEtag (snd (iteration url_error do s))) = inl req'
      /\ ReqHeader req' !! "If-None-Match" = Some [""].
Proof.
  intros Hreq Hdo Hbody Hst Hno.
  rewrite (iteration_200 url_error do s req resp Hreq Hdo Hbody Hst).
  cbn [snd lastEtag loop_client]. unfold Header.Get.
  change (Header.CanonicalMIMEHeaderKey "ETag") with "Etag". rewrite Hno.
  split; [reflexivity|].
  assert (Hurl : url_error (Host (loop_client s) +:+ "/" +:+ Blob (loop_client s)) = None).
  { unfold build_request, NewRequest in Hreq. by destruct (url_error _). }
  destruct (build_request_ok url_error (set_last (Some (Body resp)) (loop_client s))
              (Some "") Hurl) as [req' Hreq'].
  exists req'. split; [exact Hreq'|].
  by rewrite (build_request_If_None_Match url_error _ _ _ Hreq').
Qed.

(** ** Runs of the loop, continued *)

Lemma iteration_shapes (do : RoundTripper) (s : Loop) :
  iteration url_error do s = ([], s)
  \/ (exists e, iteration url_error do s = ([mkUpdate None (Some e)], s))
  \/ (exists v tok,
        iteration url_error do s =
          ([mkUpdate (Some v) None],
           mkLoop (set_last (Some v) (loop_client s)) (Some tok))).
Proof.
  unfold iteration.
  destruct (fetch_shapes url_error (loop_client s) (lastEtag s) do)
    as [H|[(v & tok & H)|[e H]]]; cbn zeta in H; rewrite H.
  - by left.
  - right; right. by exists v, tok.
  - right; left. by exists e.
Qed.


(** Every update the loop sends carries a value or an error, never both
    and never neither. *)
Theorem poll_updates_one_populated (dos : list RoundTripper) (s : Loop) :
  Forall one_populated (fst (poll url_error dos s)).
Proof.
  revert s. induction dos as [|do dos IH]; intros s; [constructor|].
  cbn [poll].
  destruct (iteration_shapes do s) as [H|[(e & H)|(v & tok & H)]]; rewrite H.
  - specialize (IH s). by destruct (poll url_error dos s).
  - specialize (IH s). destruct (poll url_error dos s). cbn in *.
    constructor; [|done]. right. by split; [|eexists].
  - specialize (IH (mkLoop (set_last (Some v) (loop_client s)) (Some tok))).
    destruct (poll url_error dos _). cbn in *.
    constructor; [|done]. left. by split; [eexists|].
Qed.

(** The cache follows the channel: after a run, [c.last] is the value of
    the last update sent without an error, or what it was before the run
    when no such update was sent. *)
Theorem poll_cache_is_last_value (dos : list RoundTripper) (s : Loop) :
  last (loop_client (snd (poll url_error dos s))) =
    last_value (fst (poll url_error dos s)) (last (loop_client s)).
Proof.
  revert s. induction dos as [|do dos IH]; intros s; [reflexivity|].
  cbn [poll].
  destruct (iteration_shapes do s) as [H|[(e & H)|(v & tok & H)]]; rewrite H.
  - specialize (IH s). by destruct (poll url_error dos s).
  - specialize (IH s). by destruct (poll url_error dos s).
  - specialize (IH (mkLoop (set_last (Some v) (loop_client s)) (Some tok))).
    by destruct (poll url_error dos _).
Qed.

(** The loop writes [c.last] and nothing else of the client: secret,
    blob name, interval, host and ticker are after a run what they were
    before. *)
Theorem poll_keeps_configuration (dos : list RoundTripper) (s : Loop) :
  set_last (last (loop_client s)) (loop_client (snd (poll url_error dos s)))
  = loop_client s.
Proof.
  revert s. induction dos as [|do dos IH]; intros s.
  - cbn. by destruct s as [[]].
  - cbn [poll].
    destruct (iteration_shapes do s) as [H|[(e & H)|(v & tok & H)]]; rewrite H.
    + specialize (IH s). by destruct (poll url_error dos s).
    + specialize (IH s). by destruct (poll url_error dos s).
    + specialize (IH (mkLoop (set_last (Some v) (loop_client s)) (Some tok))).
      destruct (poll url_error dos _) as [sent s2]. cbn [snd fst loop_client] in *.
      destruct s as [[]], s2 as [[]]. cbn in *. by simplify_eq.
Qed.

(** One update per tick at most, and none only on "same": the number of
    updates of a run is the number of its calls of [fetch] that did not
    return [same]. *)
Theorem poll_sends_unless_same (dos : list RoundTripper) (s : Loop) :
  length (fst (poll url_error dos s)) =
    length (filter (fun c => same (call_result c) = false) (fetch_calls url_error dos s))
  /\ (length (fst (poll url_error dos s)) <= length dos)%nat.
Proof.
  revert s. induction dos as [|do dos IH]; intros s; [done|].
  cbn [poll fetch_calls]. rewrite filter_cons. cbn [call_result].
  unfold iteration.
  destruct (fetch_shapes url_error (loop_client s) (lastEtag s) do)
    as [H|[(v & tok & H)|[e H]]]; cbn zeta in H; rewrite H; cbn [loop_body Unchanged Changed Failed err same snd].
  - specialize (IH s). destruct (poll url_error dos s). cbn [fst length app] in *.
    rewrite decide_False by done. lia.
  - specialize (IH (mkLoop (set_last (Some v) (loop_client s)) (Some tok))).
    cbn [data etag].
    destruct (poll url_error dos _). cbn [fst length app] in *.
    rewrite decide_True by done. cbn [length data etag Changed]. lia.
  - specialize (IH s). destruct (poll url_error dos s). cbn [fst length app] in *.
    rewrite decide_True by done. cbn [length]. lia.
Qed.

Lemma build_request_agree (c c' : Client) (tag : option string) :
  Host c = Host c' -> Blob c = Blob c' -> Secret c = Secret c' ->
  build_request url_error c tag = build_request url_error c' tag.
Proof. intros Hh Hb Hs. unfold build_request. by rewrite Hh, Hb, Hs. Qed.

Lemma poll_agree (dos : list RoundTripper) (c c' : Client) (tag : option string) :
  Host c = Host c' -> Blob c = Blob c' -> Secret c = Secret c' ->
  fst (poll url_error dos (mkLoop c tag)) = fst (poll url_error dos (mkLoop c' tag))
  /\ lastEtag (snd (poll url_error dos (mkLoop c tag)))
     = lastEtag (snd (poll url_error dos (mkLoop c' tag))).
Proof.
  revert c c' tag. induction dos as [|do dos IH]; intros c c' tag Hh Hb Hs; [done|].
  cbn [poll]. unfold iteration, fetch. cbn [loop_client lastEtag].
  rewrite (build_request_agree c c' tag Hh Hb Hs).
  set (r := match build_request url_error c' tag with inl _ => _ | inr _ => _ end).
  unfold loop_body. cbn [loop_client].
  destruct (err r); [|destruct (same r)].
  - specialize (IH c c' tag Hh Hb Hs).
    destruct (poll url_error dos (mkLoop c tag)), (poll url_error dos (mkLoop c' tag)).
    cbn in *. destruct IH as [-> ->]. done.
  - specialize (IH c c' tag Hh Hb Hs).
    destruct (poll url_error dos (mkLoop c tag)), (poll url_error dos (mkLoop c' tag)).
    cbn in *. destruct IH as [-> ->]. done.
  - specialize (IH (set_last (data r) c) (set_last (data r) c') (etag r) Hh Hb Hs).
    destruct (poll url_error dos (mkLoop (set_last (data r) c) _)),
      (poll url_error dos (mkLoop (set_last (data r) c') _)).
    cbn in *. destruct IH as [-> ->]. done.
Qed.

(** What the cache holds never decides what is sent: two runs over the
    same ticks that start with the same validator send the same updates,
    whatever [c.last], [c.Interval] and [c.ticker] are in each. *)
Theorem deliveries_ignore_cache (dos : list RoundTripper) (tag : option string)
    (secret blob host : string) (i i' : Z) (l l' : option bytes) (t t' : option nat) :
  fst (poll url_error dos (mkLoop (mkClient secret blob i host l t) tag))
  = fst (poll url_error dos (mkLoop (mkClient secret blob i' host l' t') tag)).
Proof. by apply poll_agree. Qed.

End Fetching.

(** * More of the lifecycle *)

Section Lifecycle.

Variable url_error : string -> option error.

Lemma Interval_with_defaults (c : Client) :
  Interval (with_defaults c) =
    if Interval c =? 0 then DEFAULT_INTERVAL else Interval c.
Proof.
  unfold with_defaults. destruct (String.eqb (Host c) ""); cbn;
    by destruct (Interval c =? 0).
Qed.

Lemma Host_with_defaults (c : Client) :
  Host (with_defaults c) =
    if String.eqb (Host c) "" then DEFAULT_HOST else Host c.
Proof.
  unfold with_defaults. destruct (String.eqb (Host c) ""); cbn;
    by destruct (Interval c =? 0).
Qed.

Lemma Interval_with_defaults_pos (c : Client) :
  0 < Interval (with_defaults c) <-> 0 <= Interval c.
Proof.
  rewrite Interval_with_defaults. unfold DEFAULT_INTERVAL.
  destruct (Z.eqb_spec (Interval c) 0); lia.
Qed.

Lemma Subscribe_panics (w : World) :
  ticker (client w) = None ->
  Blob (client w) <> "" ->
  Secret (client w) <> "" ->
  Interval (client w) < 0 ->
  Subscribe w = Panics "non-positive interval for NewTicker".
Proof.
  intros Ht Hb Hs Hi. unfold Subscribe. rewrite Ht.
  destruct (String.eqb_spec (Blob (client w)) ""); [contradiction|].
  destruct (String.eqb_spec (Secret (client w)) ""); [contradiction|].
  unfold make_chan, NewTicker. cbn.
  destruct (Z.leb_spec (Interval (with_defaults (client w))) 0) as [H|H];
    [reflexivity|].
  apply Interval_with_defaults_pos in H. lia.
Qed.

(** Which calls of [Subscribe] succeed and which panic. It returns a
    channel and no error exactly on a client that is not active, has a
    blob name and a secret, and whose interval is not negative; on such
    a client with a negative interval (which is not zero, so no default
    replaces it) it panics in [time.NewTicker]. It never returns a
    channel together with an error, nor neither. *)
Theorem Subscribe_succeeds_or_panics_exactly_when (w : World) :
  ((exists ch w', Subscribe w = Done ((Some ch, None), w')) <->
     ticker (client w) = None /\ Blob (client w) <> ""
     /\ Secret (client w) <> "" /\ 0 <= Interval (client w))
  /\ ((exists why, Subscribe w = Panics why) <->
        ticker (client w) = None /\ Blob (client w) <> ""
        /\ Secret (client w) <> "" /\ Interval (client w) < 0)
  /\ (forall ch e w', Subscribe w <> Done ((Some ch, Some e), w'))
  /\ (forall w', Subscribe w <> Done ((None, None), w')).
Proof.
  split; [|split; [|split]].
  - split.
    + intros (ch & w' & H). apply Subscribe_ok_inv in H as (? & ? & ? & H).
      apply Interval_with_defaults_pos in H. done.
    + intros (Ht & Hb & Hs & Hi). eexists _, _.
      apply Subscribe_ok; [done..|]. by apply Interval_with_defaults_pos.
  - split.
    + intros [why H]. unfold Subscribe in H.
      destruct (ticker (client w)); [discriminate|].
      destruct (String.eqb_spec (Blob (client w)) ""); [discriminate|].
      destruct (String.eqb_spec (Secret (client w)) ""); [discriminate|].
      unfold make_chan, NewTicker in H. cbn in H.
      destruct (Z.leb_spec (Interval (with_defaults (client w))) 0) as [Hle|Hle];
        [|discriminate].
      repeat split; try done.
      destruct (Z.lt_ge_cases (Interval (client w)) 0) as [|Hge]; [done|].
      apply Interval_with_defaults_pos in Hge. lia.
    + intros (Ht & Hb & Hs & Hi). eexists. by apply Subscribe_panics.
  - intros ch e w' H. by apply Subscribe_error_inv in H as (_ & [=] & _).
  - intros w' H. unfold Subscribe in H.
    destruct (ticker (client w)); [discriminate|].
    destruct (String.eqb (Blob (client w)) ""); [discriminate|].
    destruct (String.eqb (Secret (client w)) ""); [discriminate|].
    unfold make_chan, NewTicker in H. cbn in H.
    destruct (Interval (with_defaults (client w)) <=? 0); discriminate.
Qed.

Lemma Subscribe_success_inv (w w' : World) (ch : nat) :
  Subscribe w = Done ((Some ch, None), w') ->
  Active (client w') = true
  /\ Host (client w') =
       (if String.eqb (Host (client w)) "" then DEFAULT_HOST else Host (client w))
  /\ Interval (client w') =
       (if Interval (client w) =? 0 then DEFAULT_INTERVAL else Interval (client w))
  /\ Secret (client w') = Secret (client w)
  /\ Blob (client w') = Blob (client w)
  /\ last (client w') = last (client w)
  /\ ticker (client w') = Some (length (tickers w))
  /\ tickers w' = (tickers w ++ [mkTicker (Interval (client w')) false false])%list
  /\ ch = length (chans w)
  /\ chans w' = (chans w ++ [[]])%list
  /\ tasks w' = (tasks w ++ [mkTask ch None AtFetch])%list.
Proof.
  intros H.
  destruct (Subscribe_ok_inv _ _ _ H) as (Ht & Hb & Hs & Hi).
  rewrite (Subscribe_ok w Ht Hb Hs Hi) in H. injection H as <- <-.
  destruct (with_defaults_fields (client w)) as (Hb' & Hs' & _ & Hl').
  cbn [client tickers chans tasks set_ticker Active ticker Host Interval Secret
       Blob last].
  rewrite Host_with_defaults, Interval_with_defaults, Hb', Hs', Hl'.
  repeat split.
Qed.

(** What a successful [Subscribe] leaves: the client is active; an empty
    host became the default host and a zero interval the default
    interval, other values stay; secret, blob name and cache are
    untouched; there is one more ticker, running with the interval as
    its period, one more channel, empty, which is the one returned, and
    one more goroutine, at its first fetch with no validator, sending on
    that channel; what existed before is as it was. *)
Theorem Subscribe_success_post (w w' : World) (ch : nat) :
  Subscribe w = Done ((Some ch, None), w') ->
  Active (client w') = true
  /\ Host (client w') =
       (if String.eqb (Host (client w)) "" then DEFAULT_HOST else Host (client w))
  /\ Interval (client w') =
       (if Interval (client w) =? 0 then DEFAULT_INTERVAL else Interval (client w))
  /\ Secret (client w') = Secret (client w)
  /\ Blob (client w') = Blob (client w)
  /\ last (client w') = last (client w)
  /\ ticker (client w') = Some (length (tickers w))
  /\ tickers w' = (tickers w ++ [mkTicker (Interval (client w')) false false])%list
  /\ ch = length (chans w)
  /\ chans w' = (chans w ++ [[]])%list
  /\ tasks w' = (tasks w ++ [mkTask ch None AtFetch])%list.
Proof. exact (Subscribe_success_inv w w' ch). Qed.

(** ** Goroutines, step by step *)

Lemma run_app (sched1 sched2 : list action) (w : World) :
  run url_error (sched1 ++ sched2) w =
    match run url_error sched1 w with
    | Some (Done w') => run url_error sched2 w'
    | other => other
    end.
Proof.
  revert w. induction sched1 as [|a sched1 IH]; intros w; [reflexivity|].
  cbn [app run]. destruct (step url_error a w) as [[w'|why]|]; [apply IH|done..].
Qed.

Lemma run_tickers_to_the_tick (w : World) (g ch : nat) (tag : option string)
    (do : RoundTripper) (w' : World) :
  run url_error
    (Fetch_returns g do ::
       match fst (iteration url_error do (mkLoop (client w) tag)) with
       | [] => []
       | _ :: _ => [Receive g]
       end) w = Some (Done w') ->
  tickers w' = tickers w /\ ticker (client w') = ticker (client w).
Proof.
  unfold iteration, loop_body. cbn [loop_client lastEtag run step].
  destruct (tasks w !! g) as [[ch' tag' []]|] eqn:Hg; try discriminate.
  unfold after_fetch.
  destruct (err (fetch url_error (client w) tag do)) as [e|];
    [|destruct (same (fetch url_error (client w) tag do))];
    destruct (err (fetch url_error (client w) tag' do)) as [e'|];
    try destruct (same (fetch url_error (client w) tag' do));
    cbn [fst run step set_task tasks];
    repeat match goal with
      | |- context [<[g:=?k]> (tasks w) !! g] =>
          rewrite (list_lookup_insert_eq (tasks w) g k)
            by (by eapply lookup_lt_Some)
      end;
    intros [= <-]; done.
Qed.

Lemma tasks_set_task_eq (g : nat) (k : Task) (w : World) :
  (g < length (tasks w))%nat -> tasks (set_task g k w) !! g = Some k.
Proof. intros H. cbn [set_task tasks]. by apply list_lookup_insert_eq. Qed.

Lemma step_Eval_ticker (w : World) (g ch t : nat) (tag : option string) :
  tasks w !! g = Some (mkTask ch tag AtTicker) ->
  ticker (client w) = Some t ->
  step url_error (Eval_ticker g) w =
    Some (Done (set_task g (mkTask ch tag (AtRecvTick t)) w)).
Proof. intros Hg Ht. cbn [step]. by rewrite Hg, Ht. Qed.

Lemma step_Tick (w : World) (t : nat) (k : Ticker) :
  tickers w !! t = Some k ->
  stopped k = false ->
  step url_error (Tick t) w = Some (Done (set_tick_ready t true w)).
Proof. intros Hk Hs. cbn [step]. by rewrite Hk, Hs. Qed.

Lemma step_Tick_received (w : World) (g ch t : nat) (tag : option string)
    (k : Ticker) :
  tasks w !! g = Some (mkTask ch tag (AtRecvTick t)) ->
  tickers w !! t = Some k ->
  tick_ready k = true ->
  step url_error (Tick_received g) w =
    Some (Done (set_task g (mkTask ch tag AtFetch) (set_tick_ready t false w))).
Proof. intros Hg Hk Hr. cbn [step]. by rewrite Hg, Hk, Hr. Qed.

(** One turn of the loop as the goroutine takes it, step by step: the
    fetch returns, the reader takes what is sent (if anything is), the
    goroutine evaluates [c.ticker.C], the ticker fires and the goroutine
    receives the tick. On an active client whose ticker runs, these steps
    can all happen, and they leave the goroutine at its next fetch with
    the client, the validator and the channel that [iteration]
    computes. *)
Theorem goroutine_turn_is_iteration (w : World) (g ch t : nat)
    (tag : option string) (k : Ticker) (do : RoundTripper) :
  tasks w !! g = Some (mkTask ch tag AtFetch) ->
  (ch < length (chans w))%nat ->
  ticker (client w) = Some t ->
  tickers w !! t = Some k ->
  stopped k = false ->
  exists w',
    run url_error
      ((Fetch_returns g do ::
          match fst (iteration url_error do (mkLoop (client w) tag)) with
          | [] => []
          | _ :: _ => [Receive g]
          end) ++ [Eval_ticker g; Tick t; Tick_received g]) w = Some (Done w')
    /\ client w' = loop_client (snd (iteration url_error do (mkLoop (client w) tag)))
    /\ tasks w' !! g =
         Some (mkTask ch
                 (lastEtag (snd (iteration url_error do (mkLoop (client w) tag))))
                 AtFetch)
    /\ received ch w' =
         (received ch w ++ fst (iteration url_error do (mkLoop (client w) tag)))%list.
Proof.
  intros Hg Hch Ht Hk Hrun.
  destruct (step_iteration url_error w g ch tag do Hg Hch)
    as (w1 & Hrun1 & Hc1 & Hg1 & Hr1).
  destruct (run_tickers_to_the_tick w g ch tag do w1 Hrun1) as [Htk Htc].
  assert (Hlt : (g < length (tasks w1))%nat) by (by eapply lookup_lt_Some).
  rewrite run_app, Hrun1. cbn [run].
  rewrite (step_Eval_ticker w1 g ch t _ Hg1) by (by rewrite Htc).
  set (w2 := set_task g _ w1).
  assert (Hk2 : tickers w2 !! t = Some k)
    by (subst w2; cbn [set_task tickers]; by rewrite Htk).
  rewrite (step_Tick w2 t k Hk2 Hrun).
  set (w3 := set_tick_ready t true w2).
  erewrite (step_Tick_received w3 g ch t _ (mkTicker (period k) (stopped k) true)).
  - eexists. split; [reflexivity|]. split; [exact Hc1|]. split.
    + apply tasks_set_task_eq. subst w3 w2.
      cbn [set_tick_ready set_task tasks]. by rewrite length_insert.
    + exact Hr1.
  - subst w3. cbn [set_tick_ready tasks]. by apply tasks_set_task_eq.
  - subst w3. cbn [set_tick_ready tickers].
    rewrite list_lookup_alter, Hk2. by case_decide.
  - reflexivity.
Qed.

(** The first fetch does not wait for a tick. Right after a successful
    [Subscribe], with no tick fired, the new goroutine's fetch can return;
    when it returns a changed value, the first and only thing the reader
    of the returned channel has then received is that value, and the
    cache holds it. *)
Theorem first_fetch_is_immediate (w w1 : World) (ch : nat) (do : RoundTripper)
    (v : bytes) (tok : string) :
  Subscribe w = Done ((Some ch, None), w1) ->
  fetch url_error (client w1) None do = Changed v tok ->
  exists w2,
    run url_error
      [Fetch_returns (length (tasks w)) do; Receive (length (tasks w))] w1
    = Some (Done w2)
    /\ received ch w2 = [mkUpdate (Some v) None]
    /\ last (client w2) = Some v.
Proof.
  intros Hsub Hfetch.
  destruct (Subscribe_success_inv w w1 ch Hsub)
    as (_ & _ & _ & _ & _ & _ & _ & _ & Hch & Hchans & Htasks).
  destruct (step_iteration url_error w1 (length (tasks w)) ch None do)
    as (w2 & Hrun & Hc & _ & Hr).
  { rewrite Htasks. by rewrite lookup_app_r, Nat.sub_diag. }
  { rewrite Hchans, length_app, Hch. cbn. lia. }
  unfold iteration in Hrun, Hc, Hr. cbn [loop_client lastEtag] in Hrun, Hc, Hr.
  rewrite Hfetch in Hrun, Hc, Hr. cbn in Hrun, Hc, Hr.
  exists w2. split; [exact Hrun|]. split.
  - rewrite Hr. unfold received. rewrite Hchans, Hch.
    by rewrite lookup_app_r, Nat.sub_diag.
  - by rewrite Hc.
Qed.

(** ** What no schedule undoes *)

Lemma Subscribe_world_cases (w w' : World) (r : option nat * option error) :
  Subscribe w = Done (r, w') ->
  w' = w
  \/ (ticker (client w) = None
      /\ ticker (client w') = Some (length (tickers w))
      /\ (exists k, tickers w' = (tickers w ++ [k])%list /\ stopped k = false)
      /\ chans w' = (chans w ++ [[]])%list
      /\ tasks w' = (tasks w ++ [mkTask (length (chans w)) None AtFetch])%list).
Proof.
  destruct r as [[ch|] [e|]]; intros H.
  - left. by apply Subscribe_error_inv in H as (-> & _).
  - right. destruct (Subscribe_ok_inv _ _ _ H) as (Ht & _).
    destruct (Subscribe_success_inv _ _ _ H)
      as (_ & _ & _ & _ & _ & _ & Htk & Hts & -> & Hch & Hta).
    split; [done|]. split; [done|]. split; [|done]. by eexists.
  - left. by apply Subscribe_error_inv in H as (-> & _).
  - unfold Subscribe in H.
    destruct (ticker (client w)); [discriminate|].
    destruct (String.eqb (Blob (client w)) ""); [discriminate|].
    destruct (String.eqb (Secret (client w)) ""); [discriminate|].
    unfold make_chan, NewTicker in H. cbn in H.
    destruct (Interval (with_defaults (client w)) <=? 0); discriminate.
Qed.

(** A goroutine parked on a stopped ticker that holds no tick stays
    parked through every step, and the ticker stays stopped and empty. *)
Lemma parked_step (a : action) (w w' : World) (g ch t : nat)
    (tag : option string) (k : Ticker) :
  tasks w !! g = Some (mkTask ch tag (AtRecvTick t)) ->
  tickers w !! t = Some k -> stopped k = true -> tick_ready k = false ->
  step url_error a w = Some (Done w') ->
  tasks w' !! g = Some (mkTask ch tag (AtRecvTick t))
  /\ exists k', tickers w' !! t = Some k' /\ stopped k' = true
                /\ tick_ready k' = false.
Proof.
  intros Hg Hk Hs Hr.
  assert (Hne : forall g' ch' tag' p', tasks w !! g' = Some (mkTask ch' tag' p') ->
                p' <> AtRecvTick t -> g <> g').
  { intros g' ch' tag' p' Hg' Hp ->. rewrite Hg in Hg'. by simplify_eq. }
  destruct a as [| |g' do|g'|g'|t'|g']; cbn [step].
  - destruct (Subscribe w) as [[r w1]|] eqn:Hsub; cbn [bind snd]; [|discriminate].
    intros [= <-].
    destruct (Subscribe_world_cases _ _ _ Hsub)
      as [->|(_ & _ & (k1 & -> & _) & _ & ->)].
    + split; [done|]. by exists k.
    + split; [by apply lookup_app_l_Some|].
      exists k. split; [by apply lookup_app_l_Some|done].
  - unfold Cancel, Active.
    destruct (ticker (client w)) as [t'|]; cbn [bind Ticker_Stop];
      intros [= <-]; cbn [set_client tasks tickers].
    + split; [done|]. rewrite list_lookup_alter.
      case_decide; [subst t'|]; rewrite Hk; [|by exists k].
      cbn. eexists. split; [reflexivity|]. done.
    + split; [done|]. by exists k.
  - destruct (tasks w !! g') as [[ch' tag' []]|] eqn:Hg'; try discriminate.
    intros [= <-]. cbn [set_task tasks tickers].
    rewrite list_lookup_insert_ne by (symmetry; by eapply Hne).
    split; [done|]. by exists k.
  - destruct (tasks w !! g') as [[ch' tag' []]|] eqn:Hg'; try discriminate;
      intros [= <-]; cbn [set_task set_client deliver tasks tickers];
      (rewrite list_lookup_insert_ne by (symmetry; by eapply Hne));
      (split; [done|]); by exists k.
  - destruct (tasks w !! g') as [[ch' tag' []]|] eqn:Hg'; try discriminate.
    destruct (ticker (client w)) as [t0|]; [|discriminate].
    intros [= <-]. cbn [set_task tasks tickers].
    rewrite list_lookup_insert_ne by (symmetry; by eapply Hne).
    split; [done|]. by exists k.
  - destruct (tickers w !! t') as [k0|] eqn:Hk0; [|discriminate].
    destruct (stopped k0) eqn:Hs0; [discriminate|].
    intros [= <-]. cbn [set_tick_ready tasks tickers].
    split; [done|]. rewrite list_lookup_alter, Hk.
    case_decide; [|by exists k]. subst t'. rewrite Hk in Hk0.
    injection Hk0 as <-. by rewrite Hs in Hs0.
  - destruct (tasks w !! g') as [[ch' tag' [| | | |t0]]|] eqn:Hg'; try discriminate.
    destruct (tickers w !! t0) as [k0|] eqn:Hk0; [|discriminate].
    destruct (tick_ready k0) eqn:Hr0; [|discriminate].
    intros [= <-]. cbn [set_task set_tick_ready tasks tickers].
    assert (Ht0 : t0 <> t).
    { intros ->. rewrite Hk in Hk0. injection Hk0 as <-. by rewrite Hr in Hr0. }
    assert (Hgg : g' <> g).
    { intros ->. rewrite Hg in Hg'. by simplify_eq. }
    rewrite list_lookup_insert_ne by done.
    split; [done|]. rewrite list_lookup_alter, Hk.
    rewrite decide_False by done. by exists k.
Qed.

(** Where [Cancel] does stop the polling. A goroutine that waits for its
    tick when [Cancel] is called, with no tick pending in the ticker,
    never leaves that wait: whatever the caller, the other goroutines and
    the runtime do afterwards, a new [Subscribe] included, it makes no
    further fetch and sends nothing, and the canceled ticker never
    fires. The goroutine itself is not ended. *)
Theorem canceled_waiter_never_polls_again (sched : list action) (w w1 w' : World)
    (g ch t : nat) (tag : option string) (k : Ticker) :
  ticker (client w) = Some t ->
  tickers w !! t = Some k ->
  tick_ready k = false ->
  tasks w !! g = Some (mkTask ch tag (AtRecvTick t)) ->
  Cancel w = Done w1 ->
  run url_error sched w1 = Some (Done w') ->
  tasks w' !! g = Some (mkTask ch tag (AtRecvTick t))
  /\ step url_error (Tick t) w' = None
  /\ step url_error (Tick_received g) w' = None.
Proof.
  intros Ht Hk Hr Hg Hcan Hrun.
  rewrite (Cancel_active w t Ht) in Hcan. injection Hcan as <-.
  set (w1 := mkWorld _ _ _ _) in Hrun.
  assert (Hg1 : tasks w1 !! g = Some (mkTask ch tag (AtRecvTick t))) by exact Hg.
  assert (Hk1 : exists k1, tickers w1 !! t = Some k1 /\ stopped k1 = true
                           /\ tick_ready k1 = false).
  { subst w1. cbn [tickers]. rewrite list_lookup_alter, Hk, decide_True by done.
    by eexists. }
  clearbody w1. clear Ht Hk Hg k Hr w.
  revert w1 Hg1 Hk1 Hrun. induction sched as [|a sched IH]; intros w1 Hg1 Hk1.
  - intros [= <-]. destruct Hk1 as (k1 & Hk1 & Hs1 & Hr1).
    split; [done|]. cbn [step]. rewrite Hg1, Hk1, Hs1, Hr1. done.
  - cbn [run]. destruct (step url_error a w1) as [[w2|]|] eqn:Hstep; try discriminate.
    destruct Hk1 as (k1 & Hk1 & Hs1 & Hr1).
    destruct (parked_step a w1 w2 g ch t tag k1 Hg1 Hk1 Hs1 Hr1 Hstep) as [Hg2 Hk2].
    by apply IH.
Qed.

Lemma tidy_fresh (secret blob : string) (interval : Z) (host : string) :
  tidy (fresh secret blob interval host).
Proof.
  unfold tidy, fresh. cbn. repeat split; try done.
Qed.

Lemma tidy_set_task (w : World) (g : nat) (ch : nat) (tag tag' : option string)
    (p p' : pc) :
  tasks w !! g = Some (mkTask ch tag p) ->
  tidy w -> tidy (set_task g (mkTask ch tag' p') w).
Proof.
  intros Hg (Hl1 & Hl2 & Hch & Hrun & Hcur). unfold tidy.
  cbn [set_task tasks tickers chans client]. rewrite length_insert.
  repeat split; try done.
  intros g' k' Hg'. destruct (decide (g = g')) as [<-|Hne].
  - rewrite list_lookup_insert_eq in Hg' by (by eapply lookup_lt_Some).
    injection Hg' as <-. exact (Hch g _ Hg).
  - rewrite list_lookup_insert_ne in Hg' by done. by apply Hch.
Qed.

Lemma tidy_set_tick_ready (w : World) (t : nat) (b : bool) :
  tidy w -> tidy (set_tick_ready t b w).
Proof.
  intros (Hl1 & Hl2 & Hch & Hrun & Hcur). unfold tidy.
  cbn [set_tick_ready tasks tickers chans client]. rewrite length_alter.
  repeat split; try done.
  - intros t' k'. rewrite list_lookup_alter.
    case_decide; [subst t'|by apply Hrun].
    destruct (tickers w !! t) as [k|] eqn:Hk; [|done].
    intros [= <-]. cbn. by apply Hrun.
  - intros t' Ht'. destruct (Hcur t' Ht') as (k & Hk & Hs).
    rewrite list_lookup_alter. case_decide; [subst t'|by exists k].
    rewrite Hk. cbn. by eexists.
Qed.

Lemma tidy_step (a : action) (w w' : World) :
  tidy w -> step url_error a w = Some (Done w') -> tidy w'.
Proof.
  intros Hw. pose proof Hw as (Hl1 & Hl2 & Hch & Hrun & Hcur).
  destruct a as [| |g do|g|g|t|g]; cbn [step].
  - destruct (Subscribe w) as [[r w1]|] eqn:Hsub; cbn [bind snd]; [|discriminate].
    intros [= <-].
    destruct (Subscribe_world_cases _ _ _ Hsub)
      as [->|(Hnone & Hsome & (k1 & Htk & Hs1) & Hchans & Htasks)]; [done|].
    unfold tidy. rewrite Htk, Hchans, Htasks, !length_app. cbn [length].
    split; [lia|]. split; [lia|]. split; [|split].
    + intros g k Hg. apply lookup_app_Some in Hg as [Hg|[Hge Hg]]; [by apply Hch|].
      apply list_lookup_singleton_Some in Hg as [Hz <-]. cbn. lia.
    + intros t k Ht Hs. apply lookup_app_Some in Ht as [Ht|[Hge Ht]].
      * rewrite (Hrun t k Ht Hs) in Hnone. discriminate.
      * apply list_lookup_singleton_Some in Ht as [Hz <-].
        rewrite Hsome. f_equal. lia.
    + intros t Ht. rewrite Hsome in Ht. injection Ht as <-.
      exists k1. split; [|done]. by rewrite lookup_app_r, Nat.sub_diag.
  - unfold Cancel, Active.
    destruct (ticker (client w)) as [t|] eqn:Ht; cbn [bind Ticker_Stop];
      intros [= <-]; [|done].
    unfold tidy. cbn [set_client set_ticker client tasks tickers chans ticker].
    rewrite length_alter. repeat split; try done.
    intros t' k'. rewrite list_lookup_alter. case_decide; [subst t'|].
    + destruct (tickers w !! t); [|done]. by intros [= <-].
    + intros Hk' Hs'. specialize (Hrun t' k' Hk' Hs'). congruence.
  - destruct (tasks w !! g) as [[ch tag []]|] eqn:Hg; try discriminate.
    intros [= <-]. by eapply tidy_set_task.
  - destruct (tasks w !! g) as [[ch tag []]|] eqn:Hg; try discriminate;
      intros [= <-]; (eapply tidy_set_task; [exact Hg|]);
      unfold tidy; cbn [set_client set_last deliver client tasks tickers chans ticker];
      rewrite length_alter; done.
  - destruct (tasks w !! g) as [[ch tag []]|] eqn:Hg; try discriminate.
    destruct (ticker (client w)); [|discriminate].
    intros [= <-]. by eapply tidy_set_task.
  - destruct (tickers w !! t) as [k|]; [|discriminate].
    destruct (stopped k); [discriminate|].
    intros [= <-]. by apply tidy_set_tick_ready.
  - destruct (tasks w !! g) as [[ch tag [| | | |t]]|] eqn:Hg; try discriminate.
    destruct (tickers w !! t) as [k|]; [|discriminate].
    destruct (tick_ready k); [|discriminate].
    intros [= <-]. eapply tidy_set_task; [exact Hg|]. by apply tidy_set_tick_ready.
Qed.

Lemma tidy_run (sched : list action) (w w' : World) :
  tidy w -> run url_error sched w = Some (Done w') -> tidy w'.
Proof.
  revert w. induction sched as [|a sched IH]; intros w Hw; [by intros [= <-]|].
  cbn [run]. destruct (step url_error a w) as [[w1|]|] eqn:Hstep; try discriminate.
  apply IH. by eapply tidy_step.
Qed.

(** What every run from a fresh client keeps, whatever the caller, the
    goroutines and the runtime do. Each successful [Subscribe] has left
    one ticker, one channel and one goroutine, and none was ever removed,
    by [Cancel] or otherwise; goroutine [g] sends on channel [g] and on
    no other, so a channel has one sender; at most one ticker runs, the
    client's current one; and the client is active exactly when a ticker
    runs. *)
Theorem reachable_worlds_are_tidy (secret blob host : string) (interval : Z)
    (sched : list action) (w : World) :
  run url_error sched (fresh secret blob interval host) = Some (Done w) ->
  length (tasks w) = length (tickers w)
  /\ length (chans w) = length (tickers w)
  /\ (forall g k, tasks w !! g = Some k -> task_ch k = g)
  /\ (forall t k, tickers w !! t = Some k -> stopped k = false ->
                  ticker (client w) = Some t)
  /\ (Active (client w) = true <->
        exists t k, tickers w !! t = Some k /\ stopped k = false).
Proof.
  intros Hrun.
  destruct (tidy_run sched _ w (tidy_fresh secret blob interval host) Hrun)
    as (Hl1 & Hl2 & Hch & Hr & Hcur).
  repeat (split; [done|]). unfold Active. split.
  - destruct (ticker (client w)) as [t|] eqn:Ht; [|done]. intros _.
    destruct (Hcur t eq_refl) as (k & Hk & Hs). by exists t, k.
  - intros (t & k & Hk & Hs). by rewrite (Hr t k Hk Hs).
Qed.

End Lifecycle.

(** * The revision before validators *)

Section LegacyFacts.

Variable url_error : string -> option error.

Lemma legacy_Cancel_idem (w : Legacy.World) :
  Legacy.Cancel (Legacy.Cancel w) = Legacy.Cancel w.
Proof.
  unfold Legacy.Cancel.
  destruct (Legacy.ticker (Legacy.client w)) as [t|] eqn:Ht; cbn; rewrite Ht; [|done].
  f_equal. apply list_eq. intros i. rewrite !list_lookup_alter.
  case_decide; [|done]. rewrite decide_True by done.
  by destruct (Legacy.tickers w !! t).
Qed.

Lemma legacy_Cancel_ticker (w : Legacy.World) :
  Legacy.ticker (Legacy.client (Legacy.Cancel w)) = Legacy.ticker (Legacy.client w).
Proof.
  unfold Legacy.Cancel.
  by destruct (Legacy.ticker (Legacy.client w)) eqn:Ht.
Qed.

Lemma legacy_Subscribe_closed (w : Legacy.World) (t : nat) :
  Legacy.ticker (Legacy.client w) = Some t ->
  Legacy.Subscribe w =
    Done ((None, Some (errors_New "cannot re-subscribe with a closed Client")), w).
Proof. intros H. unfold Legacy.Subscribe. by rewrite H. Qed.

(** In the earlier revision a client that was subscribed can never be
    subscribed again, canceled or not: [Cancel] leaves [c.ticker] set, and
    [Subscribe] answers with the error about a closed client and changes
    nothing. A second [Cancel] changes nothing either. *)
Theorem legacy_Subscribe_once (w w1 : Legacy.World) (ch : nat) :
  Legacy.Subscribe w = Done ((Some ch, None), w1) ->
  Legacy.Subscribe w1 =
    Done ((None, Some (errors_New "cannot re-subscribe with a closed Client")), w1)
  /\ Legacy.Subscribe (Legacy.Cancel w1) =
      Done ((None, Some (errors_New "cannot re-subscribe with a closed Client")),
            Legacy.Cancel w1)
  /\ Legacy.Cancel (Legacy.Cancel w1) = Legacy.Cancel w1.
Proof.
  intros H.
  assert (Ht : Legacy.ticker (Legacy.client w1) = Some (length (Legacy.tickers w))).
  { unfold Legacy.Subscribe in H.
    destruct (Legacy.ticker (Legacy.client w)); [discriminate|].
    destruct (String.eqb (Legacy.Key (Legacy.client w)) ""); [discriminate|].
    destruct (String.eqb (Legacy.Secret (Legacy.client w)) ""); [discriminate|].
    match type of H with context [?d <=? 0] => destruct (d <=? 0) end;
      [discriminate|].
    by injection H as <- <-. }
  split; [by eapply legacy_Subscribe_closed|].
  split; [|apply legacy_Cancel_idem].
  eapply legacy_Subscribe_closed. by rewrite legacy_Cancel_ticker.
Qed.

(** The earlier [fetch] does not look at the status: the body of any
    response that was read to its end comes back as data with no error,
    for a 500 as for a 200; and the loop then sends it as a value when
    its bytes differ from the cache. *)
Theorem legacy_fetch_ignores_status (c : Legacy.Client) (do : RoundTripper)
    (req : Request) (resp : Response) :
  Legacy.build_request url_error c = inl req ->
  do req = inl resp ->
  BodyErr resp = None ->
  Legacy.fetch url_error c do = (Some (Body resp), None)
  /\ (default [] (Legacy.last c) <> Body resp ->
      Legacy.iteration url_error do c =
        ([mkUpdate (Some (Body resp)) None], Legacy.set_last (Some (Body resp)) c)).
Proof.
  intros Hreq Hdo Hb. unfold Legacy.iteration, Legacy.fetch.
  rewrite Hreq, Hdo, Hb. split; [reflexivity|].
  intros Hne. unfold Legacy.loop_body, Legacy.bytes_Equal. cbn [fst snd default].
  rewrite bool_decide_false by (cbn; intros Heq; by apply Hne). reflexivity.
Qed.

Lemma last_cons_default (a d : bytes) (l : list bytes) :
  List.last (a :: l) d = List.last l a.
Proof.
  revert a d. induction l as [|b l IH]; intros a d; [reflexivity|].
  change (List.last (a :: b :: l) d) with (List.last (b :: l) d).
  by rewrite !IH.
Qed.

Lemma no_repeat_cons (a b : bytes) (l : list bytes) :
  a <> b -> no_repeat (b :: l) -> no_repeat (a :: b :: l).
Proof.
  intros Hab Hl [|i] x y; cbn.
  - by intros [= <-] [= <-].
  - apply (Hl i).
Qed.

(** The earlier loop sends a value only when its bytes differ from the
    cache: in every run no value sent equals the value sent before it,
    and the first differs from what the cache held at the start, where an
    empty cache counts as the empty byte string; so an empty body is not
    sent to a client that has received nothing yet. The cache ends as the
    last value sent. *)
Theorem legacy_poll_never_repeats (dos : list RoundTripper) (c : Legacy.Client) :
  no_repeat (default [] (Legacy.last c) :: values (fst (Legacy.poll url_error dos c)))
  /\ default [] (Legacy.last (snd (Legacy.poll url_error dos c))) =
      List.last (values (fst (Legacy.poll url_error dos c)))
        (default [] (Legacy.last c)).
Proof.
  revert c. induction dos as [|do dos IH]; intros c.
  - cbn. split; [|done]. by intros [|i] a b.
  - cbn [Legacy.poll]. unfold Legacy.iteration, Legacy.loop_body.
    destruct (Legacy.fetch url_error c do) as [d [e|]]; cbn [fst snd].
    + specialize (IH c). destruct (Legacy.poll url_error dos c). exact IH.
    + unfold Legacy.bytes_Equal. case_bool_decide as Heq; cbn [negb].
      * specialize (IH c). destruct (Legacy.poll url_error dos c). exact IH.
      * specialize (IH (Legacy.set_last d c)).
        destruct (Legacy.poll url_error dos (Legacy.set_last d c)) as [sent c2].
        cbn [fst snd app values omap Error Value Legacy.set_last Legacy.last] in *.
        destruct IH as [IH1 IH2]. split.
        -- apply no_repeat_cons; [intros H; by apply Heq|exact IH1].
        -- rewrite IH2. unfold values. cbn [omap list_omap Error Value].
           by rewrite last_cons_default.
Qed.

End LegacyFacts.

(** * The further properties on concrete runs *)

Import Scene.

(** A first tick answered by 200 without an ETag header. *)
Lemma missing_ETag_gives_empty_validator_witness :
  lastEtag (snd (iteration any_url respond_without_ETag loop0)) = Some ""
  /\ exists req',
      build_request any_url
        (loop_client (snd (iteration any_url respond_without_ETag loop0)))
        (lastEtag (snd (iteration any_url respond_without_ETag loop0))) = inl req'
      /\ ReqHeader req' !! "If-None-Match" = Some [""].
Proof.
  eapply (missing_ETag_gives_empty_validator any_url respond_without_ETag loop0);
    reflexivity.
Defined.

(** The first [Subscribe] on [world0], which leaves both optional fields
    to the defaults. *)
Lemma Subscribe_success_post_witness :
  Subscribe world0 = Done ((Some 0%nat, None), world1)
  /\ Active (client world1) = true
  /\ Host (client world1) = "https://api.viteset.com"
  /\ Interval (client world1) = 60000000000.
Proof.
  split; [reflexivity|].
  pose proof (Subscribe_success_post world0 world1 0 eq_refl) as (H1 & H2 & H3 & _).
  split; [exact H1|]. split; [exact H2|exact H3].
Defined.

(** The first turn of the goroutine of [world1] against a server that
    answers 200 with A. *)
Lemma goroutine_turn_is_iteration_witness :
  exists w',
    run any_url
      [Fetch_returns 0 (respond 200 "a" A); Receive 0; Eval_ticker 0; Tick 0;
       Tick_received 0] world1 = Some (Done w')
    /\ tasks w' !! 0%nat = Some (mkTask 0 (Some "a") AtFetch)
    /\ received 0 w' = [mkUpdate (Some A) None].
Proof.
  destruct (goroutine_turn_is_iteration any_url world1 0 0 0 None
              (mkTicker 60000000000 false false) (respond 200 "a" A))
    as (w' & Hrun & _ & Hg & Hr); try reflexivity.
  - vm_compute. lia.
  - exists w'. split; [exact Hrun|]. split; [exact Hg|exact Hr].
Defined.

(** The first fetch of the goroutine of [world1], answered by 200 with A,
    with no tick in the schedule. *)
Lemma first_fetch_is_immediate_witness :
  exists w2,
    run any_url [Fetch_returns 0 (respond 200 "a" A); Receive 0] world1
    = Some (Done w2)
    /\ received 0 w2 = [mkUpdate (Some A) None]
    /\ last (client w2) = Some A.
Proof.
  apply (first_fetch_is_immediate any_url world0 world1 0 (respond 200 "a" A) A "a");
    reflexivity.
Defined.

(** [parked] is canceled; then the caller subscribes again and the second
    goroutine fetches, sends and waits: the first goroutine is where it
    was. *)
Lemma canceled_waiter_never_polls_again_witness :
  exists w',
    run any_url
      [Call_Subscribe; Fetch_returns 1 (respond 200 "a" A); Receive 1;
       Eval_ticker 1; Tick 1] parked_canceled = Some (Done w')
    /\ tasks w' !! 0%nat = Some (mkTask 0 None (AtRecvTick 0))
    /\ step any_url (Tick 0) w' = None
    /\ step any_url (Tick_received 0) w' = None.
Proof.
  eexists. split; [reflexivity|].
  eapply (canceled_waiter_never_polls_again any_url
            [Call_Subscribe; Fetch_returns 1 (respond 200 "a" A); Receive 1;
             Eval_ticker 1; Tick 1]
            parked parked_canceled _ 0 0 0 None (mkTicker 60000000000 false false));
    reflexivity.
Defined.

(** The run that leads to [parked]. *)
Lemma reachable_worlds_are_tidy_witness :
  length (tasks parked) = length (tickers parked)
  /\ length (chans parked) = length (tickers parked)
  /\ (forall g k, tasks parked !! g = Some k -> task_ch k = g)
  /\ (forall t k, tickers parked !! t = Some k -> stopped k = false ->
                  ticker (client parked) = Some t)
  /\ (Active (client parked) = true <->
        exists t k, tickers parked !! t = Some k /\ stopped k = false).
Proof.
  apply (reachable_worlds_are_tidy any_url "secret" "blob" "" 0
           [Call_Subscribe; Fetch_returns 0 (respond 304 "" []); Eval_ticker 0]).
  reflexivity.
Defined.

(** The earlier client, subscribed once. *)
Lemma legacy_Subscribe_once_witness :
  Legacy.Subscribe legacy0 = Done ((Some 0%nat, None), legacy1)
  /\ Legacy.Subscribe (Legacy.Cancel legacy1) =
      Done ((None, Some (errors_New "cannot re-subscribe with a closed Client")),
            Legacy.Cancel legacy1).
Proof.
  split; [reflexivity|].
  exact (proj1 (proj2 (legacy_Subscribe_once legacy0 legacy1 0 eq_refl))).
Defined.

(** The earlier [fetch] on a 500 response with body oops. *)
Lemma legacy_fetch_ignores_status_witness :
  Legacy.fetch any_url (Legacy.client legacy0) (respond 500 "" oops)
  = (Some oops, None).
Proof.
  eapply (proj1 (legacy_fetch_ignores_status any_url (Legacy.client legacy0)
                   (respond 500 "" oops) _ _ eq_refl eq_refl eq_refl)).
Defined.

(** * The revision with the documented package *)

(** The later [Subscribe] is the one of [client.go] but for the wording
    of the guard's error and the default interval: on a client whose
    interval is not zero it succeeds, fails and panics on the same
    clients, leaves the same world and returns the same channel, and the
    only result that differs is the text of the error about an active
    client. A canceled client is accepted by both. *)
Theorem v3_Subscribe_same_but_for_message (w : World) :
  Interval (client w) <> 0 ->
  V3.Subscribe w = V3.reworded (Subscribe w).
Proof.
  intros Hi. unfold V3.Subscribe, Subscribe, Active.
  destruct (ticker (client w)); [reflexivity|].
  destruct (String.eqb (Blob (client w)) ""); [reflexivity|].
  destruct (String.eqb (Secret (client w)) ""); [reflexivity|].
  unfold with_defaults.
  destruct (String.eqb (Host (client w)) "");
    cbn [set_Host Interval];
    (destruct (Z.eqb_spec (Interval (client w)) 0); [contradiction|]);
    unfold make_chan, NewTicker; cbn;
    match goal with |- context [?d <=? 0] => destruct (d <=? 0) end; reflexivity.
Qed.

(** On [world1], which is active and has the default interval. *)
Lemma v3_Subscribe_same_but_for_message_witness :
  V3.Subscribe world1 =
    Done ((None, Some (errors_New "client subscription is already active")), world1).
Proof.
  rewrite (v3_Subscribe_same_but_for_message world1); [reflexivity|].
  vm_compute. discriminate.
Defined.
